(** * spot_driver_cpp: image client and kinematic service

    A shallow embedding of
    - [spot_driver_cpp/src/api/default_image_client.cpp]
      (getCvPixelFormat, toCameraInfoMsg, toImageMsg, getImageTransforms,
      DefaultImageClient::getImages), and
    - [spot_driver_cpp/src/kinematic_service.cpp]
      (KinematicService::service_callback_),
    followed by the properties of the image conversion core that the
    specification states about them. *)

From Stdlib Require Import ZArith Floats Ascii.
From stdpp Require Import gmap strings list.

Local Open Scope Z_scope.
Local Open Scope string_scope.
Local Open Scope list_scope.

(** ** tl::expected *)

(** [tl::expected<T, E>]: a value or an error. *)
Inductive expected (T E : Type) : Type :=
| Ok (value : T)
| Unexpected (error : E).
Arguments Ok {T E} value.
Arguments Unexpected {T E} error.

Definition has_value {T E} (x : expected T E) : bool :=
  match x with Ok _ => true | Unexpected _ => false end.

(** ** Wire types of the robot API (bosdyn::api) *)

(** [bosdyn::api::Image::PixelFormat].  The last constructor stands for
    a wire integer that names no enumerator; protobuf keeps such values
    in the C++ enum. *)
Inductive Image_PixelFormat : Type :=
| PIXEL_FORMAT_UNKNOWN
| PIXEL_FORMAT_GREYSCALE_U8
| PIXEL_FORMAT_RGB_U8
| PIXEL_FORMAT_RGBA_U8
| PIXEL_FORMAT_DEPTH_U16
| PIXEL_FORMAT_GREYSCALE_U16
| PIXEL_FORMAT_unrecognized (wire : Z).

(** [bosdyn::api::Image::Format]. *)
Inductive Image_Format : Type :=
| FORMAT_UNKNOWN
| FORMAT_JPEG
| FORMAT_RAW
| FORMAT_RLE
| FORMAT_unrecognized (wire : Z).

Global Instance Image_Format_eq_dec : EqDecision Image_Format.
Proof. solve_decision. Defined.

(** ** OpenCV matrix types *)

Module CV.

Definition CV_CN_SHIFT : Z := 3.
Definition CV_8U : Z := 0.
Definition CV_16U : Z := 2.

(** [CV_MAT_DEPTH(flags)] and [CV_MAT_CN(flags)]. *)
Definition CV_MAT_DEPTH (flags : Z) : Z := Z.land flags 7.
Definition CV_MAT_CN (flags : Z) : Z :=
  Z.land (Z.shiftr flags CV_CN_SHIFT) 511 + 1.

(** [CV_MAKETYPE(depth, cn)]. *)
Definition CV_MAKETYPE (depth cn : Z) : Z :=
  CV_MAT_DEPTH depth + Z.shiftl (cn - 1) CV_CN_SHIFT.

Definition CV_8UC1 : Z := CV_MAKETYPE CV_8U 1.
Definition CV_8UC3 : Z := CV_MAKETYPE CV_8U 3.
Definition CV_8UC4 : Z := CV_MAKETYPE CV_8U 4.
Definition CV_16UC1 : Z := CV_MAKETYPE CV_16U 1.

(** Bytes of one channel, by depth code (8U, 8S, 16U, 16S, 32S, 32F,
    64F, 16F). *)
Definition elemSize1 (flags : Z) : Z :=
  match CV_MAT_DEPTH flags with
  | 0 | 1 => 1
  | 2 | 3 | 7 => 2
  | 4 | 5 => 4
  | _ => 8
  end.

(** [cv::Mat::elemSize()]: bytes of one pixel. *)
Definition elemSize (flags : Z) : Z := CV_MAT_CN flags * elemSize1 flags.

(** Bits of one channel. *)
Definition channel_bits (flags : Z) : Z := 8 * elemSize1 flags.

End CV.

(** ** getCvPixelFormat *)

Definition getCvPixelFormat (format : Image_PixelFormat) : expected Z string :=
  match format with
  | PIXEL_FORMAT_RGB_U8 => Ok CV.CV_8UC3
  | PIXEL_FORMAT_RGBA_U8 => Ok CV.CV_8UC4
  | PIXEL_FORMAT_GREYSCALE_U8 => Ok CV.CV_8UC1
  | PIXEL_FORMAT_GREYSCALE_U16 => Ok CV.CV_16UC1
  | PIXEL_FORMAT_DEPTH_U16 => Ok CV.CV_16UC1
  | _ => Unexpected "Unknown pixel format."
  end.

(** The five pixel formats the switch has a case for. *)
Definition supported_pixel_format (format : Image_PixelFormat) : bool :=
  match format with
  | PIXEL_FORMAT_RGB_U8 | PIXEL_FORMAT_RGBA_U8 | PIXEL_FORMAT_GREYSCALE_U8
  | PIXEL_FORMAT_GREYSCALE_U16 | PIXEL_FORMAT_DEPTH_U16 => true
  | _ => false
  end.

(** The pixel layout a matrix type stands for: (channels, bits per channel). *)
Definition pixel_layout (cv_type : Z) : Z * Z :=
  (CV.CV_MAT_CN cv_type, CV.channel_bits cv_type).

(** ** Time *)

(** Times and durations are counted in nanoseconds, the native resolution
    of [google::protobuf::Timestamp], [google::protobuf::Duration] and
    [builtin_interfaces::msg::Time]. *)
Definition Timestamp : Type := Z.
Definition Duration : Type := Z.
Definition Time : Type := Z.

(** Modelled from the spec: [spot_ros2::applyClockSkew] is defined in
    default_time_sync_api.cpp, which is not among the sources at hand;
    only its two calls in default_image_client.cpp are.  The
    specification (4.2, ClockSkewApplier) gives its contract: the
    correction is [timestamp - skew], with no rounding beyond the
    nanosecond, and the function is pure and total. *)
Definition applyClockSkew (timestamp : Timestamp) (clock_skew : Duration) : Time :=
  timestamp - clock_skew.

(** ** Geometry *)

Record Vec2 : Type := { v2_x : float; v2_y : float }.
Record Vec3 : Type := { v3_x : float; v3_y : float; v3_z : float }.
Record Quaternion : Type :=
  { q_x : float; q_y : float; q_z : float; q_w : float }.

(** [bosdyn::api::SE3Pose]. *)
Record SE3Pose : Type := { position : Vec3; rotation : Quaternion }.

(** ** Messages of the robot API *)

(** [bosdyn::api::Image].  [img_data] is the payload, a byte string. *)
Record Image : Type :=
  { img_cols : Z;
    img_rows : Z;
    img_data : list Byte.byte;
    img_format : Image_Format;
    img_pixel_format : Image_PixelFormat }.

(** One edge of [FrameTreeSnapshot::child_to_parent_edge_map]. *)
Record Edge : Type :=
  { parent_frame_name : string;
    parent_tform_child : SE3Pose }.

(** [bosdyn::api::FrameTreeSnapshot].  The edge map is a
    [google::protobuf::Map], a hash map whose iteration order is not
    defined by its contents.  The range-for of getImageTransforms sees it
    as a sequence of (child frame, edge) pairs; that sequence is what the
    field holds, in the order in which the iteration delivers it. *)
Record FrameTreeSnapshot : Type :=
  { child_to_parent_edge_map : list (string * Edge) }.

(** [bosdyn::api::ImageCapture]. *)
Record ImageCapture : Type :=
  { acquisition_time : Timestamp;
    transforms_snapshot : FrameTreeSnapshot;
    frame_name_image_sensor : string;
    image : Image }.

(** [bosdyn::api::ImageSource::PinholeModel::CameraIntrinsics]. *)
Record CameraIntrinsics : Type :=
  { focal_length : Vec2;
    principal_point : Vec2 }.

(** [bosdyn::api::ImageSource]: the wire name of the camera and its
    pinhole intrinsics. *)
Record ApiImageSource : Type :=
  { source_name : string;
    pinhole_intrinsics : CameraIntrinsics }.

(** [bosdyn::api::ImageResponse]. *)
Record ImageResponse : Type :=
  { shot : ImageCapture;
    source : ApiImageSource }.

(** ** ROS messages *)

(** [std_msgs::msg::Header]. *)
Record Header : Type :=
  { stamp : Time;
    frame_id : string }.

(** [sensor_msgs::msg::Image].  A byte of [data] is [None] when the copy
    that filled it read past the end of the buffer it copied from: C++
    gives such a byte no value. *)
Record ImageMsg : Type :=
  { image_header : Header;
    height : Z;
    width : Z;
    encoding : string;
    step : Z;
    data : list (option Byte.byte) }.

(** [sensor_msgs::msg::CameraInfo]. *)
Record CameraInfo : Type :=
  { info_header : Header;
    info_height : Z;
    info_width : Z;
    distortion_model : string;
    info_d : list float;
    info_k : list float;
    info_r : list float;
    info_p : list float }.

(** [geometry_msgs::msg::TransformStamped]. *)
Record TransformStamped : Type :=
  { tf_header : Header;
    child_frame_id : string;
    translation : Vec3;
    tf_rotation : Quaternion }.

(** ** cv::Mat and cv_bridge *)

(** A [cv::Mat] header: dimensions, element type, and the data pointer.
    [mat_data] is [None] for the null pointer and otherwise holds the
    bytes that lie at the address. *)
Record Mat : Type :=
  { mat_rows : Z;
    mat_cols : Z;
    mat_type : Z;
    mat_data : option (list Byte.byte) }.

(** [cv::Mat(rows, cols, type, data)]: a header over memory owned by the
    caller.  The constructor stores the pointer as it is given and does
    not look at how many bytes stand behind it. *)
Definition Mat_over (rows cols type : Z) (ptr : option (list Byte.byte)) : Mat :=
  {| mat_rows := rows; mat_cols := cols; mat_type := type; mat_data := ptr |}.

(** [&data.front()] for a [std::string data]: the address of the first
    byte of the string's own buffer, which is never the null pointer. *)
Definition front_address (bytes : list Byte.byte) : option (list Byte.byte) := Some bytes.

(** [memcpy] of [n] bytes out of a buffer into a fresh vector. *)
Definition copy_bytes (src : option (list Byte.byte)) (n : nat) : list (option Byte.byte) :=
  match src with
  | Some buf => (λ i : nat, buf !! i) <$> seq 0 n
  | None => replicate n None
  end.

Definition uint32 (z : Z) : Z := z mod 2 ^ 32.

(** A value of type [int]: 32 bits, two's complement. *)
Definition int32 (z : Z) : Z := (z + 2 ^ 31) mod 2 ^ 32 - 2 ^ 31.

(** The product of two [int]s.  Within the range of [int] it is the
    product; beyond it, where C++ leaves the result undefined, it is the
    product modulo 2^32, as the multiplication instruction gives it. *)
Definition int32_mul (a b : Z) : Z := int32 (a * b).

(** [cv_bridge::CvImage{header, encoding, image}.toImageMsg()]: the
    encoding string is taken from the CvImage, the row step and the number
    of copied bytes from the matrix. *)
Definition CvImage_toImageMsg (header : Header) (enc : string) (m : Mat) : ImageMsg :=
  let step := uint32 (mat_cols m * CV.elemSize (mat_type m)) in
  let size := uint32 (step * mat_rows m) in
  {| image_header := header;
     height := uint32 (mat_rows m);
     width := uint32 (mat_cols m);
     encoding := enc;
     step := step;
     data := copy_bytes (mat_data m) (Z.to_nat size) |}.

Definition TYPE_16UC1 : string := "16UC1".
Definition PLUMB_BOB : string := "plumb_bob".

(** The frame-id prefix: [robot_name + "/"], or nothing when the robot
    name is empty. *)
Definition frame_prefix (robot_name : string) : string :=
  if decide (robot_name = "") then "" else robot_name +:+ "/".

(** ** toCameraInfoMsg *)

Definition toCameraInfoMsg (image_response : ImageResponse) (robot_name : string)
    (clock_skew : Duration) : expected CameraInfo string :=
  let intrinsics := pinhole_intrinsics (source image_response) in
  let r0 := replicate 9 0%float in
  let r := <[8%nat := 1%float]> (<[7%nat := 0%float]> (<[6%nat := 0%float]>
           (<[5%nat := 0%float]> (<[4%nat := 1%float]> (<[3%nat := 0%float]>
           (<[2%nat := 0%float]> (<[1%nat := 0%float]> (<[0%nat := 1%float]> r0)))))))) in
  let k0 := replicate 9 0%float in
  let k := <[8%nat := 1%float]>
           (<[5%nat := v2_y (principal_point intrinsics)]>
           (<[4%nat := v2_y (focal_length intrinsics)]>
           (<[2%nat := v2_x (principal_point intrinsics)]>
           (<[0%nat := v2_x (focal_length intrinsics)]> k0)))) in
  let p0 := replicate 12 0%float in
  let p := <[10%nat := 1%float]>
           (<[6%nat := v2_y (principal_point intrinsics)]>
           (<[5%nat := v2_y (focal_length intrinsics)]>
           (<[2%nat := v2_x (principal_point intrinsics)]>
           (<[0%nat := v2_x (focal_length intrinsics)]> p0)))) in
  Ok {| info_header :=
          {| stamp := applyClockSkew (acquisition_time (shot image_response)) clock_skew;
             frame_id := frame_prefix robot_name
                         +:+ frame_name_image_sensor (shot image_response) |};
        info_height := uint32 (img_rows (image (shot image_response)));
        info_width := uint32 (img_cols (image (shot image_response)));
        distortion_model := PLUMB_BOB;
        info_d := [0%float; 0%float; 0%float; 0%float; 0%float];
        info_k := k;
        info_r := r;
        info_p := p |}.

(** ** getImageTransforms *)

Definition kExcludedStaticTfFrames : gset string :=
  {[ "body"; "odom"; "vision"; "arm0.link_wr1" ]}.

(** [std::set::count]. *)
Definition set_count (s : gset string) (key : string) : Z :=
  if decide (key ∈ s) then 1 else 0.

(** Modelled from the spec: [spot_ros2::conversions::toTransformStamped]
    is defined in conversions/geometry.cpp, which is not among the sources
    at hand.  The specification (3, RigidTransform; 4.5 step 4) has the
    emitted transform carry the parent frame id, the child frame id, the
    timestamp, and the translation and rotation of the edge as they are. *)
Definition toTransformStamped (transform : SE3Pose) (parent_frame child_frame : string)
    (tf_time : Time) : TransformStamped :=
  {| tf_header := {| stamp := tf_time; frame_id := parent_frame |};
     child_frame_id := child_frame;
     translation := position transform;
     tf_rotation := rotation transform |}.

(** The body of the range-for over the edge map, with [out] the vector
    built so far. *)
Fixpoint getImageTransforms_loop (edges : list (string * Edge))
    (acquisition : Timestamp) (robot_name : string) (clock_skew : Duration)
    (out : list TransformStamped) : list TransformStamped :=
  match edges with
  | [] => out
  | (child_frame_id, transform) :: rest =>
    if decide (set_count kExcludedStaticTfFrames child_frame_id > 0) then
      getImageTransforms_loop rest acquisition robot_name clock_skew out
    else
      let parent_frame_id :=
        if decide (parent_frame_name transform = "arm0.link_wr1")
        then "link_wr1" else parent_frame_name transform in
      let tform_msg :=
        toTransformStamped (parent_tform_child transform)
          (if decide (robot_name = "") then parent_frame_id
           else (robot_name +:+ "/") +:+ parent_frame_id)
          (if decide (robot_name = "") then child_frame_id
           else (robot_name +:+ "/") +:+ child_frame_id)
          (applyClockSkew acquisition clock_skew) in
      getImageTransforms_loop rest acquisition robot_name clock_skew (out ++ [tform_msg])
  end.

Definition getImageTransforms (image_response : ImageResponse) (robot_name : string)
    (clock_skew : Duration) : expected (list TransformStamped) string :=
  Ok (getImageTransforms_loop
        (child_to_parent_edge_map (transforms_snapshot (shot image_response)))
        (acquisition_time (shot image_response)) robot_name clock_skew []).

Section ImageClient.

(** [cv::imdecode(buf, cv::IMREAD_COLOR)], the JPEG codec: it returns a
    matrix whose data pointer is null when the stream cannot be decoded. *)
Variable imdecode : Mat → Mat.

(** ** toImageMsg *)

Definition toImageMsg (image_capture : ImageCapture) (robot_name : string)
    (clock_skew : Duration) : expected ImageMsg string :=
  let image := image image_capture in
  let data := img_data image in
  let header :=
    {| stamp := applyClockSkew (acquisition_time image_capture) clock_skew;
       frame_id := frame_prefix robot_name +:+ frame_name_image_sensor image_capture |} in
  match getCvPixelFormat (img_pixel_format image) with
  | Unexpected e => Unexpected ("Failed to determine pixel format: " +:+ e)
  | Ok pixel_format_cv =>
    if decide (img_format image = FORMAT_JPEG) then
      let img_compressed :=
        Mat_over 1 (int32_mul (img_rows image) (img_cols image)) CV.CV_8UC1
                 (front_address data) in
      let img_bgr := imdecode img_compressed in
      match mat_data img_bgr with
      | None => Unexpected "Failed to decode JPEG-compressed image."
      | Some _ => Ok (CvImage_toImageMsg header "bgr8" img_bgr)
      end
    else if decide (img_format image = FORMAT_RAW) then
      let img := Mat_over (img_rows image) (img_cols image) pixel_format_cv
                          (front_address data) in
      match mat_data img with
      | None => Unexpected "Failed to decode raw-formatted image."
      | Some _ => Ok (CvImage_toImageMsg header TYPE_16UC1 img)
      end
    else if decide (img_format image = FORMAT_RLE) then
      Unexpected "Conversion from FORMAT_RLE is not yet implemented."
    else
      Unexpected "Unknown image format."
  end.

(** ** DefaultImageClient::getImages *)

(** [spot_ros2::ImageSource], the canonical name of a camera source, and
    [fromSpotImageSourceName], the registry that maps a wire name to it
    (spot_image_sources.cpp).  [GetImagesResult::images_] is keyed by
    the canonical name. *)
Context {ImageSource : Type} `{Countable ImageSource}.
Variable fromSpotImageSourceName : string → expected ImageSource string.

Record ImageWithCameraInfo : Type :=
  { image_msg_of : ImageMsg;
    info_msg_of : CameraInfo }.

Record GetImagesResult : Type :=
  { images_ : gmap ImageSource ImageWithCameraInfo;
    transforms_ : list TransformStamped }.

(** What [GetImageAsync(request).get()] delivers: the status of the
    call, its debug string, and the image responses. *)
Record GetImageResultType : Type :=
  { status_ok : bool;
    status_DebugString : string;
    image_responses : list ImageResponse }.

(** [std::map::try_emplace]: inserts only when the key is absent. *)
Definition try_emplace (m : gmap ImageSource ImageWithCameraInfo)
    (key : ImageSource) (v : ImageWithCameraInfo) : gmap ImageSource ImageWithCameraInfo :=
  match m !! key with
  | Some _ => m
  | None => <[key := v]> m
  end.

(** One pass through the body of the loop over the image responses:
    either the result extended by this response, or the error the body
    returns from getImages with. *)
Definition getImages_body (robot_name_ : string) (clock_skew : Duration)
    (out : GetImagesResult) (image_response : ImageResponse)
    : expected GetImagesResult string :=
  match toImageMsg (shot image_response) robot_name_ clock_skew with
  | Unexpected e =>
    Unexpected ("Failed to convert SDK image response to ROS Image message: " +:+ e)
  | Ok image_msg =>
    match toCameraInfoMsg image_response robot_name_ clock_skew with
    | Unexpected e =>
      Unexpected ("Failed to convert SDK image response to ROS CameraInfo message: " +:+ e)
    | Ok info_msg =>
      let camera_name := source_name (source image_response) in
      match fromSpotImageSourceName camera_name with
      | Unexpected e =>
        Unexpected ("Failed to convert API image source name to ImageSource: " +:+ e)
      | Ok source_name_result =>
        let images := try_emplace (images_ out) source_name_result
                        {| image_msg_of := image_msg; info_msg_of := info_msg |} in
        match getImageTransforms image_response robot_name_ clock_skew with
        | Ok transforms =>
          Ok {| images_ := images; transforms_ := transforms_ out ++ transforms |}
        | Unexpected e => Unexpected ("Failed to get image transforms: " +:+ e)
        end
      end
    end
  end.

Fixpoint getImages_loop (robot_name_ : string) (clock_skew : Duration)
    (responses : list ImageResponse) (out : GetImagesResult)
    : expected GetImagesResult string :=
  match responses with
  | [] => Ok out
  | image_response :: rest =>
    match getImages_body robot_name_ clock_skew out image_response with
    | Unexpected e => Unexpected e
    | Ok out' => getImages_loop robot_name_ clock_skew rest out'
    end
  end.

(** getImages, as a function of what its two collaborators deliver: the
    result of the image request and the clock skew estimate. *)
Definition getImages (robot_name_ : string) (get_image_result : GetImageResultType)
    (clock_skew_result : expected Duration string) : expected GetImagesResult string :=
  if negb (status_ok get_image_result) then
    Unexpected ("Failed to get images: " +:+ status_DebugString get_image_result)
  else
    match clock_skew_result with
    | Unexpected e => Unexpected ("Failed to get latest clock skew: " +:+ e)
    | Ok clock_skew =>
      getImages_loop robot_name_ clock_skew (image_responses get_image_result)
        {| images_ := ∅; transforms_ := [] |}
    end.

End ImageClient.

(** ** KinematicService::service_callback_ *)

Module Kinematic.
Section KinematicService.

(** The request and response messages of GetInverseKinematicSolutions,
    the request and response of the robot API, and the three
    collaborators of the callback: the two converters of
    kinematic_utils and [KinematicApi::get_solutions]. *)
Variables Request Response ProtoRequest ProtoResponse : Type.
Variable convert_inverse_kinematics_request_to_proto : Request → ProtoRequest.

(** The value inside the result of get_solutions; the callback reads
    its [response] member. *)
Record Result : Type := { result_status : string; response : ProtoResponse }.

Variable get_solutions : ProtoRequest → expected Result string.
Variable convert_proto_to_inverse_kinematics_response : ProtoResponse → Response.

(** Response objects live in a store; each carries the use count of the
    [std::shared_ptr]s that own it. *)
Record cell : Type := { object : Response; use_count : nat }.

Record state : Type :=
  { heap : gmap positive cell;
    logged_errors : list string }.

(** A [std::shared_ptr<Response>]: null, or the address of an object. *)
Definition shared_ptr : Type := option positive.

(** Copying a shared_ptr adds one owner. *)
Definition sp_copy (h : gmap positive cell) (p : shared_ptr) : gmap positive cell :=
  match p with
  | None => h
  | Some l =>
    match h !! l with
    | Some c => <[l := {| object := object c; use_count := S (use_count c) |}]> h
    | None => h
    end
  end.

(** Destroying or reseating a shared_ptr removes one owner; the object
    is deleted with its last owner. *)
Definition sp_release (h : gmap positive cell) (p : shared_ptr) : gmap positive cell :=
  match p with
  | None => h
  | Some l =>
    match h !! l with
    | Some c =>
      match use_count c with
      | S (S n) => <[l := {| object := object c; use_count := S n |}]> h
      | _ => delete l h
      end
    | None => h
    end
  end.

(** A new object with one owner, at an address not in use. *)
Definition make_shared (h : gmap positive cell) (v : Response)
    : positive * gmap positive cell :=
  let l := fresh (dom h) in
  (l, <[l := {| object := v; use_count := 1%nat |}]> h).

Definition logError (σ : state) (msg : string) : state :=
  {| heap := heap σ; logged_errors := logged_errors σ ++ [msg] |}.

Inductive outcome : Type :=
| Returned
| Threw_bad_expected_access.

(** The callback up to and including the assignment
    [response = convert_proto_to_inverse_kinematics_response(...)]:
    the state reached and what the local [response] then points to, or
    the state in which [expected.value()] throws.  The converter hands
    back a shared_ptr to a message of its own making, and the
    assignment reseats the local pointer on it. *)
Definition service_callback_assign (σ : state) (request : Request)
    (response_ptr : shared_ptr) : state * option shared_ptr :=
  let proto_request := convert_inverse_kinematics_request_to_proto request in
  let expected := get_solutions proto_request in
  let σ1 :=
    match expected with
    | Unexpected e =>
      logError σ ("Error searching for an InverseKinematic solution: " +:+ e)
    | Ok _ => σ
    end in
  match expected with
  | Unexpected _ => (σ1, None)
  | Ok v =>
    let '(converted, h2) :=
      make_shared (heap σ1) (convert_proto_to_inverse_kinematics_response (response v)) in
    let h3 := sp_release h2 response_ptr in
    ({| heap := h3; logged_errors := logged_errors σ1 |}, Some (Some converted))
  end.

(** The whole callback.  [response_ptr] is the by-value parameter: the
    callback owns it and destroys it when it returns or unwinds. *)
Definition service_callback_ (σ : state) (request : Request)
    (response_ptr : shared_ptr) : outcome * state :=
  match service_callback_assign σ request response_ptr with
  | (σ', Some local) =>
    (Returned, {| heap := sp_release (heap σ') local; logged_errors := logged_errors σ' |})
  | (σ', None) =>
    (Threw_bad_expected_access,
     {| heap := sp_release (heap σ') response_ptr; logged_errors := logged_errors σ' |})
  end.

(** The lambda registered by [init]: it passes copies of its two
    shared_ptrs to the callback. *)
Definition init_lambda (σ : state) (request : Request) (response_ptr : shared_ptr)
    : outcome * state :=
  service_callback_
    {| heap := sp_copy (heap σ) response_ptr; logged_errors := logged_errors σ |}
    request response_ptr.

End KinematicService.
End Kinematic.

(** ** Views used by the statements *)

(** PixelFormatMapper.map: the pixel layout (channels, bits per channel)
    of the matrix type getCvPixelFormat resolves a wire format to. *)
Definition PixelFormatMapper_map (format : Image_PixelFormat) : expected (Z * Z) string :=
  match getCvPixelFormat format with
  | Ok cv_type => Ok (pixel_layout cv_type)
  | Unexpected e => Unexpected e
  end.

(** An image capture with another image in it, and an image with another
    pixel format, payload or encoding. *)
Definition with_image (c : ImageCapture) (i : Image) : ImageCapture :=
  {| acquisition_time := acquisition_time c;
     transforms_snapshot := transforms_snapshot c;
     frame_name_image_sensor := frame_name_image_sensor c;
     image := i |}.

Definition with_pixel_format (i : Image) (pf : Image_PixelFormat) : Image :=
  {| img_cols := img_cols i; img_rows := img_rows i; img_data := img_data i;
     img_format := img_format i; img_pixel_format := pf |}.

(** The header toImageMsg and toCameraInfoMsg give their message. *)
Definition header_of (c : ImageCapture) (robot_name : string) (clock_skew : Duration) : Header :=
  {| stamp := applyClockSkew (acquisition_time c) clock_skew;
     frame_id := frame_prefix robot_name +:+ frame_name_image_sensor c |}.

(** ** Sample inputs *)

(** A codec that decodes no stream: every call yields the empty matrix. *)
Definition no_codec : Mat → Mat := λ _, Mat_over 0 0 0 None.

Definition zero_pose : SE3Pose :=
  {| position := {| v3_x := 0; v3_y := 0; v3_z := 0 |};
     rotation := {| q_x := 0; q_y := 0; q_z := 0; q_w := 1 |} |}.

Definition sample_capture (frame : string) (edges : list (string * Edge)) (i : Image)
  : ImageCapture :=
  {| acquisition_time := 1000;
     transforms_snapshot := {| child_to_parent_edge_map := edges |};
     frame_name_image_sensor := frame;
     image := i |}.

(** A raw depth image declared 2 x 2, so 8 bytes are due, that holds
    only 7. *)
Definition raw_depth_short : Image :=
  {| img_cols := 2; img_rows := 2;
     img_data := replicate 7 Byte.x01;
     img_format := FORMAT_RAW; img_pixel_format := PIXEL_FORMAT_DEPTH_U16 |}.

(** The same declaration with no payload at all. *)
Definition raw_depth_empty : Image :=
  {| img_cols := 2; img_rows := 2; img_data := [];
     img_format := FORMAT_RAW; img_pixel_format := PIXEL_FORMAT_DEPTH_U16 |}.

(** A raw depth image, 2 x 2, with its 8 bytes. *)
Definition raw_depth_full : Image :=
  {| img_cols := 2; img_rows := 2;
     img_data := replicate 8 Byte.x01;
     img_format := FORMAT_RAW; img_pixel_format := PIXEL_FORMAT_DEPTH_U16 |}.

(** A raw RGB image of one pixel: three bytes, one per channel. *)
Definition raw_rgb_pixel : Image :=
  {| img_cols := 1; img_rows := 1;
     img_data := [Byte.x0a; Byte.x0b; Byte.x0c];
     img_format := FORMAT_RAW; img_pixel_format := PIXEL_FORMAT_RGB_U8 |}.

(** A JPEG entry whose pixel format is a wire value without enumerator. *)
Definition jpeg_odd_pixel_format : Image :=
  {| img_cols := 1; img_rows := 2;
     img_data := [Byte.xff; Byte.xd8];
     img_format := FORMAT_JPEG; img_pixel_format := PIXEL_FORMAT_unrecognized 42 |}.

(** A frame name as getImageTransforms emits it: behind the robot name
    and a slash, or as it is when the robot name is empty. *)
Definition namespaced (robot_name frame : string) : string :=
  if decide (robot_name = "") then frame else (robot_name +:+ "/") +:+ frame.

(** The parent name as emitted: the wrist link under its external name. *)
Definition external_parent (parent : string) : string :=
  if decide (parent = "arm0.link_wr1") then "link_wr1" else parent.

(** The transform emitted for an edge that is not skipped. *)
Definition emitted (acquisition : Timestamp) (robot_name : string) (clock_skew : Duration)
    (entry : string * Edge) : TransformStamped :=
  toTransformStamped (parent_tform_child entry.2)
    (namespaced robot_name (external_parent (parent_frame_name entry.2)))
    (namespaced robot_name entry.1)
    (applyClockSkew acquisition clock_skew).

(** Whether an edge is kept, by its child frame. *)
Definition kept (entry : string * Edge) : Prop :=
  entry.1 ∉ kExcludedStaticTfFrames.

Global Instance kept_dec entry : Decision (kept entry).
Proof. unfold kept. apply _. Defined.

(** Whether a string has a slash in it. *)
Fixpoint has_slash (s : string) : bool :=
  match s with
  | EmptyString => false
  | String a rest => if Ascii.eqb a "/"%char then true else has_slash rest
  end.

Definition edge_to (parent : string) : Edge :=
  {| parent_frame_name := parent; parent_tform_child := zero_pose |}.

(** A hand-camera snapshot: the camera under the internal wrist link, the
    wrist link under the body, and the odometry edges. *)
Definition hand_edges : list (string * Edge) :=
  [ ("hand_color_image_sensor", edge_to "arm0.link_wr1");
    ("arm0.link_wr1", edge_to "body");
    ("body", edge_to "odom");
    ("odom", edge_to "vision");
    ("vision", edge_to "") ].

(** Two edges, and the same two as another iteration delivers them. *)
Definition two_edges : list (string * Edge) :=
  [ ("frontleft", edge_to "head"); ("frontright", edge_to "head") ].
Definition two_edges_swapped : list (string * Edge) :=
  [ ("frontright", edge_to "head"); ("frontleft", edge_to "head") ].

Definition response_with_edges (edges : list (string * Edge)) : ImageResponse :=
  {| shot := sample_capture "camera" edges raw_depth_full;
     source := {| source_name := "camera";
                  pinhole_intrinsics :=
                    {| focal_length := {| v2_x := 1; v2_y := 1 |};
                       principal_point := {| v2_x := 0; v2_y := 0 |} |} |} |}.

(** Whether the two fallible steps of the loop body go through for a
    response: the image conversion and the look-up of the source name. *)
Definition entry_converts {ImageSource : Type} (imdecode : Mat → Mat)
    (fromSpotImageSourceName : string → expected ImageSource string)
    (robot_name : string) (clock_skew : Duration) (r : ImageResponse) : bool :=
  has_value (toImageMsg imdecode (shot r) robot_name clock_skew)
  && has_value (fromSpotImageSourceName (source_name (source r))).

(** A registry of two wire names, with strings for canonical names. *)
Definition sample_registry (wire_name : string) : expected string string :=
  if decide (wire_name = "frontleft_depth") then Ok "FRONTLEFT/DEPTH"
  else if decide (wire_name = "hand_color_image") then Ok "HAND/RGB"
  else Unexpected ("Cannot convert API image source name to ImageSource: " +:+ wire_name).

Definition sample_intrinsics : CameraIntrinsics :=
  {| focal_length := {| v2_x := 1; v2_y := 1 |};
     principal_point := {| v2_x := 0; v2_y := 0 |} |}.

Definition sample_response (wire_name frame : string) (i : Image) : ImageResponse :=
  {| shot := sample_capture frame [] i;
     source := {| source_name := wire_name; pinhole_intrinsics := sample_intrinsics |} |}.

(** Two entries under the same wire name, with different payloads and
    sensor frames, an entry in the run-length encoding, and an entry under
    a wire name the registry does not know. *)
Definition raw_depth_other : Image :=
  {| img_cols := 2; img_rows := 2;
     img_data := replicate 8 Byte.x02;
     img_format := FORMAT_RAW; img_pixel_format := PIXEL_FORMAT_DEPTH_U16 |}.

Definition rle_image : Image :=
  {| img_cols := 2; img_rows := 2; img_data := [Byte.x00];
     img_format := FORMAT_RLE; img_pixel_format := PIXEL_FORMAT_DEPTH_U16 |}.

Definition first_entry : ImageResponse :=
  sample_response "frontleft_depth" "frontleft" raw_depth_full.
Definition second_entry : ImageResponse :=
  sample_response "frontleft_depth" "frontleft_again" raw_depth_other.
Definition rle_entry : ImageResponse :=
  sample_response "hand_color_image" "hand" rle_image.
Definition unknown_entry : ImageResponse :=
  sample_response "no_such_camera" "nowhere" raw_depth_full.

Definition batch_of (responses : list ImageResponse) : GetImageResultType :=
  {| status_ok := true; status_DebugString := ""; image_responses := responses |}.

(** The transforms getImages appends for one response. *)
Definition transforms_of (robot_name : string) (clock_skew : Duration) (r : ImageResponse)
  : list TransformStamped :=
  emitted (acquisition_time (shot r)) robot_name clock_skew
    <$> filter kept (child_to_parent_edge_map (transforms_snapshot (shot r))).

(** A store with one response, owned by the caller, and collaborators
    for a request that has a solution and for one that has none. *)
Definition caller_store : Kinematic.state string :=
  {| Kinematic.heap := {[ 1%positive := {| Kinematic.object := "caller's response";
                                           Kinematic.use_count := 1 |} ]};
     Kinematic.logged_errors := [] |}.

Definition solving_api (proto_request : string) : expected (Kinematic.Result string) string :=
  Ok {| Kinematic.result_status := "ok"; Kinematic.response := "solution" |}.

Definition failing_api (proto_request : string) : expected (Kinematic.Result string) string :=
  Unexpected "no solution".

(** A response with another image in its shot. *)
Definition response_with_image (r : ImageResponse) (i : Image) : ImageResponse :=
  {| shot := with_image (shot r) i; source := source r |}.

(** The matrix toImageMsg hands to the codec for a JPEG entry: one row of
    rows * cols bytes, the product being that of two [int]s, over the
    payload. *)
Definition compressed_matrix (i : Image) : Mat :=
  Mat_over 1 (int32_mul (img_rows i) (img_cols i)) CV.CV_8UC1 (front_address (img_data i)).

(** The number of bytes cv_bridge copies for a raw entry of matrix type
    [cv_type]. *)
Definition raw_size (i : Image) (cv_type : Z) : Z :=
  img_rows i * img_cols i * CV.elemSize cv_type.

(** A codec that decodes every stream to one BGR pixel, and a JPEG entry
    for it. *)
Definition one_pixel_codec : Mat → Mat :=
  λ _, Mat_over 1 1 CV.CV_8UC3 (Some [Byte.x01; Byte.x02; Byte.x03]).

Definition jpeg_rgb : Image :=
  {| img_cols := 2; img_rows := 1;
     img_data := [Byte.xff; Byte.xd8];
     img_format := FORMAT_JPEG; img_pixel_format := PIXEL_FORMAT_RGB_U8 |}.

Definition jpeg_entry : ImageResponse :=
  sample_response "hand_color_image" "hand" jpeg_rgb.

(** A hand-camera entry with the hand snapshot. *)
Definition hand_entry : ImageResponse :=
  {| shot := sample_capture "hand" hand_edges raw_depth_full;
     source := {| source_name := "hand_color_image";
                  pinhole_intrinsics := sample_intrinsics |} |}.

(** * Properties *)

(** ** getCvPixelFormat *)

Lemma getCvPixelFormat_supported format :
  supported_pixel_format format = true ↔ ∃ t, getCvPixelFormat format = Ok t.
Proof.
  destruct format; simpl; split; intros; eauto;
    try discriminate; destruct_and?; by destruct H as [? [=]].
Qed.

Lemma getCvPixelFormat_unsupported format :
  supported_pixel_format format = false →
  getCvPixelFormat format = Unexpected "Unknown pixel format.".
Proof. by destruct format. Qed.

(** C7. PixelFormatMapper.map gives RGB-8U three channels of 8 bits,
    RGBA-8U four channels of 8 bits, Grayscale-8U one channel of 8 bits,
    Grayscale-16U and Depth-16U one channel of 16 bits; for every other
    pixel-format value it fails with the unknown-pixel-format error and
    yields no layout. *)
Theorem PixelFormatMapper_map_table :
  PixelFormatMapper_map PIXEL_FORMAT_RGB_U8 = Ok (3, 8) ∧
  PixelFormatMapper_map PIXEL_FORMAT_RGBA_U8 = Ok (4, 8) ∧
  PixelFormatMapper_map PIXEL_FORMAT_GREYSCALE_U8 = Ok (1, 8) ∧
  PixelFormatMapper_map PIXEL_FORMAT_GREYSCALE_U16 = Ok (1, 16) ∧
  PixelFormatMapper_map PIXEL_FORMAT_DEPTH_U16 = Ok (1, 16) ∧
  ∀ format,
    format ≠ PIXEL_FORMAT_RGB_U8 →
    format ≠ PIXEL_FORMAT_RGBA_U8 →
    format ≠ PIXEL_FORMAT_GREYSCALE_U8 →
    format ≠ PIXEL_FORMAT_GREYSCALE_U16 →
    format ≠ PIXEL_FORMAT_DEPTH_U16 →
    getCvPixelFormat format = Unexpected "Unknown pixel format." ∧
    PixelFormatMapper_map format = Unexpected "Unknown pixel format.".
Proof.
  repeat split; try reflexivity.
  all: destruct format; try reflexivity; congruence.
Qed.

Lemma PixelFormatMapper_map_table_witness :
  getCvPixelFormat (PIXEL_FORMAT_unrecognized 7) = Unexpected "Unknown pixel format." ∧
  PixelFormatMapper_map PIXEL_FORMAT_UNKNOWN = Unexpected "Unknown pixel format.".
Proof.
  split.
  - apply (proj2 (proj2 (proj2 (proj2 (proj2 PixelFormatMapper_map_table))))
             (PIXEL_FORMAT_unrecognized 7)); discriminate.
  - apply (proj2 (proj2 (proj2 (proj2 (proj2 PixelFormatMapper_map_table))))
             PIXEL_FORMAT_UNKNOWN); discriminate.
Defined.

(** ** toImageMsg *)

Section ToImageMsg.

Variable imdecode : Mat → Mat.

Lemma toImageMsg_unknown_pixel_format c robot_name clock_skew :
  supported_pixel_format (img_pixel_format (image c)) = false →
  toImageMsg imdecode c robot_name clock_skew
  = Unexpected "Failed to determine pixel format: Unknown pixel format.".
Proof.
  intros Hpf. unfold toImageMsg.
  by rewrite (getCvPixelFormat_unsupported _ Hpf).
Qed.

(** The JPEG branch, once the pixel format has resolved. *)
Lemma toImageMsg_jpeg c robot_name clock_skew :
  supported_pixel_format (img_pixel_format (image c)) = true →
  img_format (image c) = FORMAT_JPEG →
  toImageMsg imdecode c robot_name clock_skew
  = let img_bgr :=
      imdecode (Mat_over 1 (int32_mul (img_rows (image c)) (img_cols (image c))) CV.CV_8UC1
                         (Some (img_data (image c)))) in
    match mat_data img_bgr with
    | None => Unexpected "Failed to decode JPEG-compressed image."
    | Some _ => Ok (CvImage_toImageMsg (header_of c robot_name clock_skew) "bgr8" img_bgr)
    end.
Proof.
  intros [t Ht]%getCvPixelFormat_supported Hfmt.
  unfold toImageMsg. rewrite Ht, Hfmt. by rewrite decide_True.
Qed.

(** The raw branch, once the pixel format has resolved: it returns a
    message whatever the payload is. *)
Lemma toImageMsg_raw c robot_name clock_skew t :
  getCvPixelFormat (img_pixel_format (image c)) = Ok t →
  img_format (image c) = FORMAT_RAW →
  toImageMsg imdecode c robot_name clock_skew
  = Ok (CvImage_toImageMsg (header_of c robot_name clock_skew) TYPE_16UC1
          (Mat_over (img_rows (image c)) (img_cols (image c)) t
                    (Some (img_data (image c))))).
Proof.
  intros Ht Hfmt. unfold toImageMsg. rewrite Ht, Hfmt.
  rewrite decide_False by discriminate. by rewrite decide_True.
Qed.

Lemma toImageMsg_stamp c robot_name clock_skew m :
  toImageMsg imdecode c robot_name clock_skew = Ok m →
  stamp (image_header m) = applyClockSkew (acquisition_time c) clock_skew.
Proof.
  unfold toImageMsg. destruct (getCvPixelFormat _); [|discriminate].
  repeat case_decide; try discriminate.
  - destruct (mat_data (imdecode _)); [|discriminate]. by intros [= <-].
  - simpl. by intros [= <-].
Qed.

End ToImageMsg.

Lemma copy_bytes_all (buf : list Byte.byte) :
  copy_bytes (Some buf) (length buf) = Some <$> buf.
Proof.
  unfold copy_bytes. apply list_eq. intros i.
  rewrite !list_lookup_fmap.
  destruct (decide (i < length buf)%nat) as [Hlt|Hge].
  - rewrite lookup_seq_lt by done. simpl.
    destruct (lookup_lt_is_Some_2 buf i Hlt) as [b Hb]. by rewrite Hb.
  - rewrite lookup_seq_ge by lia. simpl.
    by rewrite lookup_ge_None_2 by lia.
Qed.

(** A raw 16-bit single-channel entry whose payload has exactly
    rows * cols * 2 bytes decodes, and every byte of the message comes
    from the payload. *)
Lemma toImageMsg_raw16_exact imdecode c robot_name clock_skew :
  img_format (image c) = FORMAT_RAW →
  getCvPixelFormat (img_pixel_format (image c)) = Ok CV.CV_16UC1 →
  (0 ≤ img_rows (image c))%Z → (0 ≤ img_cols (image c) < 2 ^ 31)%Z →
  (img_rows (image c) * img_cols (image c) * 2 < 2 ^ 32)%Z →
  Z.of_nat (length (img_data (image c))) = img_rows (image c) * img_cols (image c) * 2 →
  ∃ m, toImageMsg imdecode c robot_name clock_skew = Ok m ∧
       encoding m = TYPE_16UC1 ∧
       step m = img_cols (image c) * 2 ∧
       data m = Some <$> img_data (image c).
Proof.
  intros Hfmt Ht Hr Hc Hlt Hlen.
  rewrite (toImageMsg_raw _ _ _ _ _ Ht Hfmt).
  eexists; split; [reflexivity|]. simpl.
  change (CV.elemSize CV.CV_16UC1) with 2.
  assert (Hstep : uint32 (img_cols (image c) * 2) = img_cols (image c) * 2).
  { unfold uint32. apply Z.mod_small. lia. }
  rewrite Hstep. repeat split.
  assert (Hsize : uint32 (img_cols (image c) * 2 * img_rows (image c))
                  = Z.of_nat (length (img_data (image c)))).
  { unfold uint32. rewrite Z.mod_small by nia. lia. }
  rewrite Hsize, Nat2Z.id. apply copy_bytes_all.
Qed.

(** C2. A raw depth entry declared 2 x 2 whose payload has 7 bytes, one
    short of rows * cols * 2, is not refused: toImageMsg returns a 2 x 2
    message of row step 4 whose eighth byte was read past the end of the
    payload.  The same holds for the empty payload, where all eight bytes
    are. *)
Theorem toImageMsg_raw_undersized_accepted :
  toImageMsg no_codec (sample_capture "depth" [] raw_depth_short) "" 0
  = Ok {| image_header := {| stamp := 1000; frame_id := "depth" |};
          height := 2; width := 2; encoding := "16UC1"; step := 4;
          data := replicate 7 (Some Byte.x01) ++ [None] |} ∧
  toImageMsg no_codec (sample_capture "depth" [] raw_depth_empty) "" 0
  = Ok {| image_header := {| stamp := 1000; frame_id := "depth" |};
          height := 2; width := 2; encoding := "16UC1"; step := 4;
          data := replicate 8 None |} ∧
  toImageMsg no_codec (sample_capture "depth" [] raw_depth_full) "" 0
  = Ok {| image_header := {| stamp := 1000; frame_id := "depth" |};
          height := 2; width := 2; encoding := "16UC1"; step := 4;
          data := replicate 8 (Some Byte.x01) |}.
Proof. repeat split; vm_compute; reflexivity. Qed.

(** C3. A raw RGB-8 entry of one pixel is not refused: toImageMsg returns
    a message labelled 16UC1 whose row step, 3 bytes for one pixel, is that
    of the three-channel 8-bit matrix it was copied from. *)
Theorem toImageMsg_raw_rgb_mislabelled :
  toImageMsg no_codec (sample_capture "hand" [] raw_rgb_pixel) "" 0
  = Ok {| image_header := {| stamp := 1000; frame_id := "hand" |};
          height := 1; width := 1; encoding := "16UC1"; step := 3;
          data := [Some Byte.x0a; Some Byte.x0b; Some Byte.x0c] |} ∧
  PixelFormatMapper_map (img_pixel_format raw_rgb_pixel) = Ok (3, 8).
Proof. split; vm_compute; reflexivity. Qed.

(** C9. The pixel format is resolved before the encoding is looked at: an
    entry whose pixel format is none of the five known ones fails with the
    pixel-format error whatever its encoding, JPEG included; and for a
    JPEG entry the resolved layout has no part in the result, which is the
    same for any two known pixel formats and is labelled bgr8 when it is a
    message. *)
Theorem toImageMsg_resolves_pixel_format_first imdecode c robot_name clock_skew :
  (supported_pixel_format (img_pixel_format (image c)) = false →
   toImageMsg imdecode c robot_name clock_skew
   = Unexpected "Failed to determine pixel format: Unknown pixel format.") ∧
  (img_format (image c) = FORMAT_JPEG →
   (∀ pf1 pf2,
      supported_pixel_format pf1 = true → supported_pixel_format pf2 = true →
      toImageMsg imdecode (with_image c (with_pixel_format (image c) pf1)) robot_name clock_skew
      = toImageMsg imdecode (with_image c (with_pixel_format (image c) pf2)) robot_name clock_skew) ∧
   (∀ m, toImageMsg imdecode c robot_name clock_skew = Ok m → encoding m = "bgr8")).
Proof.
  split; [apply toImageMsg_unknown_pixel_format|].
  intros Hjpeg. split.
  - intros pf1 pf2 H1 H2.
    rewrite !toImageMsg_jpeg by done. reflexivity.
  - intros m. destruct (supported_pixel_format (img_pixel_format (image c))) eqn:Hpf.
    + rewrite toImageMsg_jpeg by done. simpl.
      destruct (mat_data _); [|discriminate]. by intros [= <-].
    + by rewrite toImageMsg_unknown_pixel_format.
Qed.

Lemma toImageMsg_resolves_pixel_format_first_witness :
  img_format jpeg_odd_pixel_format = FORMAT_JPEG ∧
  toImageMsg no_codec (sample_capture "hand" [] jpeg_odd_pixel_format) "spot" 50
  = Unexpected "Failed to determine pixel format: Unknown pixel format.".
Proof.
  split; [reflexivity|].
  apply (proj1 (toImageMsg_resolves_pixel_format_first no_codec
                  (sample_capture "hand" [] jpeg_odd_pixel_format) "spot" 50)).
  reflexivity.
Defined.

(** ** getImageTransforms *)

Lemma set_count_excluded child :
  set_count kExcludedStaticTfFrames child > 0 ↔ child ∈ kExcludedStaticTfFrames.
Proof. unfold set_count. case_decide; split; intros; (done || lia). Qed.

(** The loop appends, in iteration order, the transform of each edge whose
    child frame is not excluded. *)
Lemma getImageTransforms_loop_spec edges acquisition robot_name clock_skew out :
  getImageTransforms_loop edges acquisition robot_name clock_skew out
  = out ++ (emitted acquisition robot_name clock_skew <$> filter kept edges).
Proof.
  revert out. induction edges as [|[child e] rest IH]; intros out; simpl.
  - by rewrite app_nil_r.
  - case_decide as Hc; rewrite set_count_excluded in Hc.
    + rewrite IH. by rewrite filter_cons_False by (unfold kept; simpl; tauto).
    + rewrite IH. rewrite filter_cons_True by done.
      rewrite <- app_assoc. reflexivity.
Qed.

Lemma getImageTransforms_spec r robot_name clock_skew :
  getImageTransforms r robot_name clock_skew
  = Ok (emitted (acquisition_time (shot r)) robot_name clock_skew
          <$> filter kept (child_to_parent_edge_map (transforms_snapshot (shot r)))).
Proof. unfold getImageTransforms. by rewrite getImageTransforms_loop_spec. Qed.

Lemma has_slash_namespaced a b : has_slash ((a +:+ "/") +:+ b) = true.
Proof.
  induction a as [|ch a IH]; simpl; [done|].
  by destruct (Ascii.eqb ch "/"%char).
Qed.

Lemma namespaced_not_excluded robot_name child :
  child ∉ kExcludedStaticTfFrames → namespaced robot_name child ∉ kExcludedStaticTfFrames.
Proof.
  intros Hc. unfold namespaced. case_decide; [done|].
  pose proof (has_slash_namespaced robot_name child) as Hs.
  unfold kExcludedStaticTfFrames.
  rewrite !not_elem_of_union, !not_elem_of_singleton.
  repeat split; intros Heq; rewrite Heq in Hs; discriminate.
Qed.

Lemma emitted_child acquisition robot_name clock_skew entry :
  child_frame_id (emitted acquisition robot_name clock_skew entry)
  = namespaced robot_name entry.1.
Proof. reflexivity. Qed.

Lemma emitted_parent acquisition robot_name clock_skew entry :
  frame_id (tf_header (emitted acquisition robot_name clock_skew entry))
  = namespaced robot_name (external_parent (parent_frame_name entry.2)).
Proof. reflexivity. Qed.

Lemma emitted_stamp acquisition robot_name clock_skew entry :
  stamp (tf_header (emitted acquisition robot_name clock_skew entry))
  = applyClockSkew acquisition clock_skew.
Proof. reflexivity. Qed.

Lemma not_excluded_names (s : string) :
  s ∉ kExcludedStaticTfFrames →
  s ≠ "body" ∧ s ≠ "odom" ∧ s ≠ "vision" ∧ s ≠ "arm0.link_wr1".
Proof. unfold kExcludedStaticTfFrames. set_solver. Qed.

(** C5. getImageTransforms always returns a sequence; no transform in it
    has "body", "odom", "vision" or "arm0.link_wr1" as its child frame,
    each comes from an edge of the snapshot whose child is none of these,
    and an edge whose parent is "arm0.link_wr1" is emitted with the
    parent "link_wr1" (behind the robot name, when there is one). *)
Theorem getImageTransforms_excludes_and_renames r robot_name clock_skew :
  ∃ out,
    getImageTransforms r robot_name clock_skew = Ok out ∧
    (∀ t, t ∈ out →
       (child_frame_id t ≠ "body" ∧ child_frame_id t ≠ "odom" ∧
        child_frame_id t ≠ "vision" ∧ child_frame_id t ≠ "arm0.link_wr1") ∧
       ∃ child e,
         (child, e) ∈ child_to_parent_edge_map (transforms_snapshot (shot r)) ∧
         (child ≠ "body" ∧ child ≠ "odom" ∧ child ≠ "vision" ∧ child ≠ "arm0.link_wr1") ∧
         t = toTransformStamped (parent_tform_child e)
               (namespaced robot_name (external_parent (parent_frame_name e)))
               (namespaced robot_name child)
               (applyClockSkew (acquisition_time (shot r)) clock_skew) ∧
         child_frame_id t = namespaced robot_name child ∧
         (parent_frame_name e = "arm0.link_wr1" →
          frame_id (tf_header t) = namespaced robot_name "link_wr1") ∧
         (parent_frame_name e ≠ "arm0.link_wr1" →
          frame_id (tf_header t) = namespaced robot_name (parent_frame_name e))) ∧
    (∀ child e,
       (child, e) ∈ child_to_parent_edge_map (transforms_snapshot (shot r)) →
       child ∉ kExcludedStaticTfFrames →
       parent_frame_name e = "arm0.link_wr1" →
       ∃ t, t ∈ out ∧ child_frame_id t = namespaced robot_name child ∧
            frame_id (tf_header t) = namespaced robot_name "link_wr1").
Proof.
  eexists. split; [apply getImageTransforms_spec|]. split.
  - intros t [[child e] [-> [Hkept Hin]%list_elem_of_filter]]%list_elem_of_fmap.
    split.
    + rewrite emitted_child. apply not_excluded_names.
      by apply namespaced_not_excluded.
    + exists child, e. split; [done|]. split; [by apply not_excluded_names|].
      split; [done|]. split; [done|]. rewrite emitted_parent. unfold external_parent. simpl.
      split; intros Hp; by rewrite ?decide_True, ?decide_False by done.
  - intros child e Hin Hkept Hp.
    exists (emitted (acquisition_time (shot r)) robot_name clock_skew (child, e)).
    split; [|split].
    + apply list_elem_of_fmap. exists (child, e). split; [done|].
      by apply list_elem_of_filter.
    + done.
    + rewrite emitted_parent. unfold external_parent. simpl.
      by rewrite decide_True.
Qed.

Lemma getImageTransforms_excludes_and_renames_witness :
  ∃ t, child_frame_id t = "spot/hand_color_image_sensor" ∧
       frame_id (tf_header t) = "spot/link_wr1".
Proof.
  destruct (getImageTransforms_excludes_and_renames
              (response_with_edges hand_edges) "spot" 50) as (out & _ & _ & Hren).
  destruct (Hren "hand_color_image_sensor" (edge_to "arm0.link_wr1"))
    as (t & _ & Hchild & Hparent).
  - vm_compute. constructor.
  - apply (bool_decide_unpack _). vm_compute. exact I.
  - reflexivity.
  - exists t. split; [exact Hchild | exact Hparent].
Defined.

(** Two iterations over the same edges give the same transforms up to
    their order. *)
Lemma getImageTransforms_loop_Permutation edges1 edges2 acquisition robot_name clock_skew :
  edges1 ≡ₚ edges2 →
  getImageTransforms_loop edges1 acquisition robot_name clock_skew []
  ≡ₚ getImageTransforms_loop edges2 acquisition robot_name clock_skew [].
Proof.
  intros Hp. rewrite !getImageTransforms_loop_spec. simpl.
  by rewrite Hp.
Qed.

(** C8, as the code has it.  The emitted sequence follows the order in
    which the edge map is iterated: it is the sequence of kept edges, each
    turned into its transform, in that order.  Hence one and the same
    iteration sequence gives one and the same output, and two iteration
    sequences of the same edges give outputs that hold the same
    transforms, in an order that may differ. *)
Theorem getImageTransforms_order_is_iteration_order r1 r2 robot_name clock_skew :
  acquisition_time (shot r1) = acquisition_time (shot r2) →
  child_to_parent_edge_map (transforms_snapshot (shot r1))
  ≡ₚ child_to_parent_edge_map (transforms_snapshot (shot r2)) →
  ∃ out1 out2,
    getImageTransforms r1 robot_name clock_skew = Ok out1 ∧
    getImageTransforms r2 robot_name clock_skew = Ok out2 ∧
    out1 = (emitted (acquisition_time (shot r1)) robot_name clock_skew
              <$> filter kept (child_to_parent_edge_map (transforms_snapshot (shot r1)))) ∧
    out2 = (emitted (acquisition_time (shot r2)) robot_name clock_skew
              <$> filter kept (child_to_parent_edge_map (transforms_snapshot (shot r2)))) ∧
    out1 ≡ₚ out2 ∧
    (child_to_parent_edge_map (transforms_snapshot (shot r1))
     = child_to_parent_edge_map (transforms_snapshot (shot r2)) → out1 = out2).
Proof.
  intros Hacq Hperm. do 2 eexists.
  split; [apply getImageTransforms_spec|].
  split; [apply getImageTransforms_spec|].
  split; [reflexivity|]. split; [reflexivity|]. split.
  - rewrite Hacq. by rewrite Hperm.
  - intros ->. by rewrite Hacq.
Qed.

Lemma getImageTransforms_order_is_iteration_order_witness :
  ∃ out1 out2,
    getImageTransforms (response_with_edges two_edges) "" 0 = Ok out1 ∧
    getImageTransforms (response_with_edges two_edges_swapped) "" 0 = Ok out2 ∧
    out1 ≡ₚ out2.
Proof.
  destruct (getImageTransforms_order_is_iteration_order
              (response_with_edges two_edges) (response_with_edges two_edges_swapped) "" 0)
    as (out1 & out2 & H1 & H2 & _ & _ & Hp & _).
  - reflexivity.
  - simpl. unfold two_edges, two_edges_swapped. apply Permutation_swap.
  - exists out1, out2. split; [exact H1|]. split; [exact H2 | exact Hp].
Defined.

(** C8, as the claim has it, fails: the two iteration sequences below hold
    the same two edges, and the outputs differ. *)
Lemma getImageTransforms_order_depends_on_iteration :
  two_edges ≡ₚ two_edges_swapped ∧
  getImageTransforms (response_with_edges two_edges) "" 0
  ≠ getImageTransforms (response_with_edges two_edges_swapped) "" 0.
Proof.
  split; [apply Permutation_swap|].
  rewrite !getImageTransforms_spec. vm_compute. intros Heq.
  inversion Heq.
Qed.

(** ** toCameraInfoMsg *)

Lemma toCameraInfoMsg_total r robot_name clock_skew :
  ∃ info, toCameraInfoMsg r robot_name clock_skew = Ok info ∧
          stamp (info_header info)
          = applyClockSkew (acquisition_time (shot r)) clock_skew ∧
          info_d info = replicate 5 0%float.
Proof. eexists. split; [reflexivity|]. split; reflexivity. Qed.

(** ** getImages *)

Section GetImages.

Variable imdecode : Mat → Mat.
Context {ImageSource : Type} `{Countable ImageSource}.
Variable fromSpotImageSourceName : string → expected ImageSource string.
Variables (robot_name_ : string) (clock_skew : Duration).

Local Abbreviation body := (getImages_body imdecode fromSpotImageSourceName robot_name_ clock_skew).
Local Abbreviation loop := (getImages_loop imdecode fromSpotImageSourceName robot_name_ clock_skew).
Local Abbreviation converts := (entry_converts imdecode fromSpotImageSourceName robot_name_ clock_skew).

Lemma try_emplace_keeps (m : gmap ImageSource ImageWithCameraInfo) key v key' v' :
  m !! key' = Some v' → try_emplace m key v !! key' = Some v'.
Proof.
  intros Hm. unfold try_emplace. destruct (m !! key) eqn:Hk; [done|].
  rewrite lookup_insert_ne; [done|]. intros ->. congruence.
Qed.

Lemma try_emplace_new (m : gmap ImageSource ImageWithCameraInfo) key v :
  m !! key = None → try_emplace m key v !! key = Some v.
Proof. intros Hm. unfold try_emplace. rewrite Hm. apply lookup_insert_eq. Qed.

Lemma try_emplace_other (m : gmap ImageSource ImageWithCameraInfo) key v key' :
  key ≠ key' → try_emplace m key v !! key' = m !! key'.
Proof.
  intros Hne. unfold try_emplace. destruct (m !! key); [done|].
  by rewrite lookup_insert_ne.
Qed.

Lemma try_emplace_is_Some (m : gmap ImageSource ImageWithCameraInfo) key v :
  is_Some (try_emplace m key v !! key).
Proof.
  unfold try_emplace. destruct (m !! key) eqn:Hk; [by rewrite Hk|].
  rewrite lookup_insert_eq. eauto.
Qed.

(** What the loop body does with a response, by the outcome of its two
    fallible steps. *)
Lemma getImages_body_image_error out r d :
  toImageMsg imdecode (shot r) robot_name_ clock_skew = Unexpected d →
  body out r
  = Unexpected ("Failed to convert SDK image response to ROS Image message: " +:+ d).
Proof. intros Hd. unfold getImages_body. by rewrite Hd. Qed.

Lemma getImages_body_name_error out r d :
  has_value (toImageMsg imdecode (shot r) robot_name_ clock_skew) = true →
  fromSpotImageSourceName (source_name (source r)) = Unexpected d →
  body out r
  = Unexpected ("Failed to convert API image source name to ImageSource: " +:+ d).
Proof.
  intros Hv Hd. unfold getImages_body.
  destruct (toImageMsg _ _ _ _); [|discriminate]. simpl. by rewrite Hd.
Qed.

Lemma getImages_body_ok out r image_msg info_msg key :
  toImageMsg imdecode (shot r) robot_name_ clock_skew = Ok image_msg →
  toCameraInfoMsg r robot_name_ clock_skew = Ok info_msg →
  fromSpotImageSourceName (source_name (source r)) = Ok key →
  body out r
  = Ok {| images_ := try_emplace (images_ out) key
                       {| image_msg_of := image_msg; info_msg_of := info_msg |};
          transforms_ :=
            transforms_ out
            ++ (emitted (acquisition_time (shot r)) robot_name_ clock_skew
                  <$> filter kept (child_to_parent_edge_map
                                     (transforms_snapshot (shot r)))) |}.
Proof.
  intros Him Hinfo Hkey. unfold getImages_body.
  rewrite Him, Hinfo, Hkey, getImageTransforms_spec. reflexivity.
Qed.

Lemma getImages_body_ok_inv out r out' :
  body out r = Ok out' →
  ∃ image_msg info_msg key,
    toImageMsg imdecode (shot r) robot_name_ clock_skew = Ok image_msg ∧
    toCameraInfoMsg r robot_name_ clock_skew = Ok info_msg ∧
    fromSpotImageSourceName (source_name (source r)) = Ok key ∧
    converts r = true.
Proof.
  unfold getImages_body, entry_converts.
  destruct (toImageMsg _ _ _ _) as [im|]; [|discriminate].
  destruct (toCameraInfoMsg _ _ _) as [info|] eqn:Hinfo; [|discriminate].
  destruct (fromSpotImageSourceName _) as [key|]; [|discriminate].
  intros _. by exists im, info, key.
Qed.

Lemma converts_body_ok out r :
  converts r = true → ∃ out', body out r = Ok out'.
Proof.
  unfold entry_converts. intros [Him Hkey]%andb_true_iff.
  destruct (toImageMsg _ _ _ _) as [im|] eqn:Him'; [|discriminate].
  destruct (fromSpotImageSourceName _) as [key|] eqn:Hkey'; [|discriminate].
  destruct (toCameraInfoMsg_total r robot_name_ clock_skew) as (info & Hinfo & _).
  eexists. by apply getImages_body_ok.
Qed.

(** The loop over a batch split in two. *)
Lemma getImages_loop_app rs1 rs2 out :
  loop (rs1 ++ rs2) out
  = match loop rs1 out with
    | Ok out' => loop rs2 out'
    | Unexpected e => Unexpected e
    end.
Proof.
  revert out. induction rs1 as [|r rs1 IH]; intros out; simpl; [done|].
  destruct (body out r); [apply IH | done].
Qed.

Lemma getImages_loop_total rs out :
  Forall (λ r, converts r = true) rs → ∃ out', loop rs out = Ok out'.
Proof.
  intros Hall. revert out. induction Hall as [|r rs Hr _ IH]; intros out; simpl.
  - by exists out.
  - destruct (converts_body_ok out r Hr) as [out1 ->]. apply IH.
Qed.

(** Invariants of the loop: what holds of the initial result and is
    kept by each pass of the body holds of the final result. *)
Lemma getImages_loop_invariant (P : GetImagesResult → Prop) rs out out' :
  P out →
  (∀ r o o', r ∈ rs → P o → body o r = Ok o' → P o') →
  loop rs out = Ok out' → P out'.
Proof.
  revert out. induction rs as [|r rs IH]; intros out HP Hstep; simpl.
  - by intros [= <-].
  - destruct (body out r) as [out1|] eqn:Hb; [|discriminate].
    apply IH.
    + eapply Hstep; [|done..]. by left.
    + intros r' o o' Hin. apply Hstep. by right.
Qed.

Lemma getImages_loop_ok_inv rs out out' :
  loop rs out = Ok out' → Forall (λ r, converts r = true) rs.
Proof.
  revert out. induction rs as [|r rs IH]; intros out; simpl; [by constructor|].
  destruct (body out r) as [out1|] eqn:Hb; [|discriminate].
  intros Hl. constructor; [|by eapply IH].
  by destruct (getImages_body_ok_inv _ _ _ Hb) as (? & ? & ? & _ & _ & _ & ?).
Qed.

Lemma getImages_ok_batch dbg responses :
  getImages imdecode fromSpotImageSourceName robot_name_
    {| status_ok := true; status_DebugString := dbg; image_responses := responses |}
    (Ok clock_skew)
  = loop responses {| images_ := ∅; transforms_ := [] |}.
Proof. reflexivity. Qed.

(** C4. getImages is fail-fast and all-or-nothing.  When the entries
    before some entry convert and that entry does not, the call returns
    that entry's error behind the name of the stage that failed, whatever
    entries follow it: the error of toImageMsg (pixel format or
    decoding) or the error of the source-name look-up.  When the call
    returns a result, every entry of the batch has converted and its
    canonical name is bound in the result. *)
Theorem getImages_fail_fast dbg :
  (∀ done r rest,
     Forall (λ r', converts r' = true) done →
     (∀ d, toImageMsg imdecode (shot r) robot_name_ clock_skew = Unexpected d →
           getImages imdecode fromSpotImageSourceName robot_name_
             {| status_ok := true; status_DebugString := dbg;
                image_responses := done ++ r :: rest |} (Ok clock_skew)
           = Unexpected ("Failed to convert SDK image response to ROS Image message: "
                         +:+ d)) ∧
     (∀ d, has_value (toImageMsg imdecode (shot r) robot_name_ clock_skew) = true →
           fromSpotImageSourceName (source_name (source r)) = Unexpected d →
           getImages imdecode fromSpotImageSourceName robot_name_
             {| status_ok := true; status_DebugString := dbg;
                image_responses := done ++ r :: rest |} (Ok clock_skew)
           = Unexpected ("Failed to convert API image source name to ImageSource: "
                         +:+ d))) ∧
  (∀ responses out,
     getImages imdecode fromSpotImageSourceName robot_name_
       {| status_ok := true; status_DebugString := dbg; image_responses := responses |}
       (Ok clock_skew) = Ok out →
     Forall (λ r, converts r = true) responses ∧
     ∀ r, r ∈ responses →
          ∃ key, fromSpotImageSourceName (source_name (source r)) = Ok key ∧
                 is_Some (images_ out !! key)).
Proof.
  split.
  - intros done r rest Hdone.
    destruct (getImages_loop_total done {| images_ := ∅; transforms_ := [] |} Hdone)
      as [out1 Hout1].
    split; intros d; intros; rewrite getImages_ok_batch, getImages_loop_app, Hout1; simpl.
    + by rewrite (getImages_body_image_error _ _ d).
    + by rewrite (getImages_body_name_error _ _ d).
  - intros responses out. rewrite getImages_ok_batch. intros Hloop.
    split; [by eapply getImages_loop_ok_inv|].
    revert Hloop.
    generalize ({| images_ := (∅ : gmap ImageSource ImageWithCameraInfo);
                   transforms_ := [] |}).
    induction responses as [|r0 rs IH]; intros out0 Hloop r Hin.
    + by apply elem_of_nil in Hin.
    + simpl in Hloop.
      destruct (body out0 r0) as [out1|] eqn:Hb; [|discriminate].
      apply elem_of_cons in Hin as [->|Hin]; [|by eapply IH].
      destruct (getImages_body_ok_inv _ _ _ Hb) as (im & info & key & Him & Hinfo & Hkey & _).
      exists key. split; [done|].
      rewrite (getImages_body_ok _ _ _ _ _ Him Hinfo Hkey) in Hb.
      injection Hb as <-.
      assert (is_Some (images_
                {| images_ := try_emplace (images_ out0) key
                                {| image_msg_of := im; info_msg_of := info |};
                   transforms_ :=
                     transforms_ out0
                     ++ (emitted (acquisition_time (shot r0)) robot_name_ clock_skew
                           <$> filter kept (child_to_parent_edge_map
                                              (transforms_snapshot (shot r0)))) |}
                !! key)) as [v Hv] by apply try_emplace_is_Some.
      exists v.
      eapply (getImages_loop_invariant (λ o, images_ o !! key = Some v)); [exact Hv| |exact Hloop].
      intros r' o o' _ Ho Hb'.
      destruct (getImages_body_ok_inv _ _ _ Hb') as (im' & info' & key' & Him' & Hinfo' & Hkey' & _).
      rewrite (getImages_body_ok _ _ _ _ _ Him' Hinfo' Hkey') in Hb'.
      injection Hb' as <-. simpl. by apply try_emplace_keeps.
Qed.

Lemma getImages_loop_transforms rs out out' :
  loop rs out = Ok out' →
  transforms_ out' = transforms_ out ++ (rs ≫= transforms_of robot_name_ clock_skew).
Proof.
  revert out. induction rs as [|r rs IH]; intros out; simpl.
  - intros [= <-]. by rewrite app_nil_r.
  - destruct (body out r) as [out1|] eqn:Hb; [|discriminate].
    intros Hl. rewrite (IH _ Hl).
    destruct (getImages_body_ok_inv _ _ _ Hb) as (im & info & key & Him & Hinfo & Hkey & _).
    rewrite (getImages_body_ok _ _ _ _ _ Him Hinfo Hkey) in Hb.
    injection Hb as <-. simpl. by rewrite <- app_assoc.
Qed.

Lemma getImages_loop_keeps rs out out' key v :
  loop rs out = Ok out' →
  images_ out !! key = Some v → images_ out' !! key = Some v.
Proof.
  intros Hl Hv.
  eapply (getImages_loop_invariant (λ o, images_ o !! key = Some v)); [exact Hv| |exact Hl].
  intros r o o' _ Ho Hb.
  destruct (getImages_body_ok_inv _ _ _ Hb) as (im & info & key' & Him & Hinfo & Hkey & _).
  rewrite (getImages_body_ok _ _ _ _ _ Him Hinfo Hkey) in Hb.
  injection Hb as <-. simpl. by apply try_emplace_keeps.
Qed.

Lemma getImages_loop_absent rs out out' key :
  loop rs out = Ok out' →
  images_ out !! key = None →
  (∀ r, r ∈ rs → fromSpotImageSourceName (source_name (source r)) ≠ Ok key) →
  images_ out' !! key = None.
Proof.
  intros Hl Hv Hfresh.
  eapply (getImages_loop_invariant (λ o, images_ o !! key = None)); [exact Hv| |exact Hl].
  intros r o o' Hin Ho Hb.
  destruct (getImages_body_ok_inv _ _ _ Hb) as (im & info & key' & Him & Hinfo & Hkey & _).
  rewrite (getImages_body_ok _ _ _ _ _ Him Hinfo Hkey) in Hb.
  injection Hb as <-. simpl. rewrite try_emplace_other; [done|].
  intros ->. by apply (Hfresh r).
Qed.

(** C1, as the code has it.  Entries that map to one and the same
    canonical name do not make the call fail.  In a batch whose entries
    all convert, the name is bound to the image and camera info of the
    first entry that maps to it, whatever entries follow, those of the
    same name included; the transforms of every entry are appended. *)
Theorem getImages_keeps_first_of_duplicates dbg pre r post key :
  Forall (λ r', converts r' = true) (pre ++ r :: post) →
  fromSpotImageSourceName (source_name (source r)) = Ok key →
  (∀ r', r' ∈ pre → fromSpotImageSourceName (source_name (source r')) ≠ Ok key) →
  ∃ out image_msg info_msg,
    getImages imdecode fromSpotImageSourceName robot_name_
      {| status_ok := true; status_DebugString := dbg;
         image_responses := pre ++ r :: post |} (Ok clock_skew) = Ok out ∧
    toImageMsg imdecode (shot r) robot_name_ clock_skew = Ok image_msg ∧
    toCameraInfoMsg r robot_name_ clock_skew = Ok info_msg ∧
    images_ out !! key = Some {| image_msg_of := image_msg; info_msg_of := info_msg |} ∧
    transforms_ out = (pre ++ r :: post) ≫= transforms_of robot_name_ clock_skew.
Proof.
  intros Hall Hkey Hfresh.
  destruct (getImages_loop_total _ {| images_ := ∅; transforms_ := [] |} Hall)
    as [out Hout].
  pose proof (getImages_loop_transforms _ _ _ Hout) as Hts.
  apply Forall_app in Hall as [_ Hall]. apply Forall_cons in Hall as [Hr _].
  rewrite getImages_loop_app in Hout.
  destruct (loop pre _) as [out1|] eqn:Hpre; [|discriminate].
  simpl in Hout.
  destruct (body out1 r) as [out2|] eqn:Hb; [|discriminate].
  destruct (getImages_body_ok_inv _ _ _ Hb) as (im & info & key' & Him & Hinfo & Hkey' & _).
  assert (key' = key) as -> by congruence.
  exists out, im, info. rewrite getImages_ok_batch, getImages_loop_app, Hpre.
  simpl. rewrite Hb. repeat split; try done.
  eapply getImages_loop_keeps; [exact Hout|].
  rewrite (getImages_body_ok _ _ _ _ _ Him Hinfo Hkey) in Hb.
  injection Hb as <-. simpl. apply try_emplace_new.
  by eapply getImages_loop_absent.
Qed.

End GetImages.

Lemma getImages_fail_fast_witness :
  getImages no_codec sample_registry "spot"
    (batch_of [first_entry; rle_entry; unknown_entry]) (Ok 50)
  = Unexpected ("Failed to convert SDK image response to ROS Image message: "
                +:+ "Conversion from FORMAT_RLE is not yet implemented.").
Proof.
  apply (proj1 (proj1 (getImages_fail_fast no_codec sample_registry "spot" 50 "")
                  [first_entry] rle_entry [unknown_entry]
                  ltac:(repeat constructor))
           "Conversion from FORMAT_RLE is not yet implemented.").
  reflexivity.
Defined.

(** C1, as the claim has it, fails: the two entries below map to the same
    canonical name, and the call returns a result that holds one image. *)
Lemma getImages_duplicate_not_refused :
  sample_registry (source_name (source first_entry)) = Ok "FRONTLEFT/DEPTH" ∧
  sample_registry (source_name (source second_entry)) = Ok "FRONTLEFT/DEPTH" ∧
  ∃ out,
    getImages no_codec sample_registry "" (batch_of [first_entry; second_entry]) (Ok 0)
    = Ok out ∧
    size (images_ out) = 1%nat.
Proof.
  split; [reflexivity|]. split; [reflexivity|].
  eexists. split; [vm_compute; reflexivity|]. vm_compute. reflexivity.
Qed.

Lemma getImages_keeps_first_of_duplicates_witness :
  ∃ out image_msg info_msg,
    getImages no_codec sample_registry "" (batch_of [first_entry; second_entry]) (Ok 0)
    = Ok out ∧
    toImageMsg no_codec (shot first_entry) "" 0 = Ok image_msg ∧
    images_ out !! "FRONTLEFT/DEPTH"
    = Some {| image_msg_of := image_msg; info_msg_of := info_msg |}.
Proof.
  destruct (getImages_keeps_first_of_duplicates no_codec sample_registry "" 0 ""
              [] first_entry [second_entry] "FRONTLEFT/DEPTH")
    as (out & im & info & Hget & Him & _ & Hlook & _).
  - repeat constructor.
  - reflexivity.
  - intros r' Hr'. vm_compute in Hr'. inversion Hr'.
  - exists out, im, info. split; [exact Hget|]. split; [exact Him | exact Hlook].
Defined.

(** ** KinematicService::service_callback_ *)

Section KinematicServiceFacts.

Variables Request Response ProtoRequest ProtoResponse : Type.
Variable convert_request : Request → ProtoRequest.
Variable get_solutions : ProtoRequest → expected (Kinematic.Result ProtoResponse) string.
Variable convert_response : ProtoResponse → Response.

Local Abbreviation cell := (Kinematic.cell Response).
Local Abbreviation callback_assign :=
  (Kinematic.service_callback_assign Request Response ProtoRequest ProtoResponse
     convert_request get_solutions convert_response).
Local Abbreviation init_lambda :=
  (Kinematic.init_lambda Request Response ProtoRequest ProtoResponse
     convert_request get_solutions convert_response).

Local Arguments Kinematic.sp_release : simpl never.
Local Arguments Kinematic.sp_copy : simpl never.

Lemma sp_copy_lookup (h : gmap positive cell) l c :
  h !! l = Some c →
  Kinematic.sp_copy Response h (Some l)
  = <[l := {| Kinematic.object := Kinematic.object Response c;
              Kinematic.use_count := S (Kinematic.use_count Response c) |}]> h.
Proof. intros Hl. unfold Kinematic.sp_copy. by rewrite Hl. Qed.

(** Releasing one of several owners leaves the object in place. *)
Lemma sp_release_shared (h : gmap positive cell) l v n :
  h !! l = Some {| Kinematic.object := v; Kinematic.use_count := S (S n) |} →
  Kinematic.sp_release Response h (Some l)
  = <[l := {| Kinematic.object := v; Kinematic.use_count := S n |}]> h.
Proof. intros Hl. unfold Kinematic.sp_release. by rewrite Hl. Qed.

(** Releasing the only owner deletes the object. *)
Lemma sp_release_last (h : gmap positive cell) l v :
  h !! l = Some {| Kinematic.object := v; Kinematic.use_count := 1 |} →
  Kinematic.sp_release Response h (Some l) = delete l h.
Proof. intros Hl. unfold Kinematic.sp_release. by rewrite Hl. Qed.

(** C10. The callback leaves the caller's response as it found it.  With
    the caller's response at [l], after the call the store is the store
    before the call, whether the callback returns or throws.  When
    get_solutions has a value, the assignment puts the converted message
    into a new object at another address, owned by the local pointer
    alone, and the object at [l] stays what it was; the new object goes
    with the local pointer when the callback returns. *)
Theorem service_callback_leaves_response σ request l (c : cell) :
  Kinematic.heap Response σ !! l = Some c →
  (0 < Kinematic.use_count Response c)%nat →
  Kinematic.heap Response (init_lambda σ request (Some l)).2 = Kinematic.heap Response σ ∧
  match get_solutions (convert_request request) with
  | Ok v =>
    (init_lambda σ request (Some l)).1 = Kinematic.Returned ∧
    ∃ σ' l',
      callback_assign
        {| Kinematic.heap := Kinematic.sp_copy Response (Kinematic.heap Response σ) (Some l);
           Kinematic.logged_errors := Kinematic.logged_errors Response σ |}
        request (Some l) = (σ', Some (Some l')) ∧
      l' ≠ l ∧
      Kinematic.heap Response σ !! l' = None ∧
      Kinematic.heap Response σ' !! l'
      = Some {| Kinematic.object := convert_response (Kinematic.response ProtoResponse v);
                Kinematic.use_count := 1 |} ∧
      Kinematic.heap Response σ' !! l = Some c
  | Unexpected e =>
    (init_lambda σ request (Some l)).1 = Kinematic.Threw_bad_expected_access
  end.
Proof.
  intros Hl Hcount. destruct c as [v [|n]]; [simpl in Hcount; lia|]. clear Hcount.
  unfold Kinematic.init_lambda, Kinematic.service_callback_,
    Kinematic.service_callback_assign, Kinematic.make_shared.
  rewrite (sp_copy_lookup _ _ _ Hl). simpl.
  destruct (get_solutions (convert_request request)) as [res|e]; simpl.
  - set (h1 := <[l := {| Kinematic.object := v; Kinematic.use_count := S (S n) |}]>
                 (Kinematic.heap Response σ)).
    set (l' := fresh (dom h1)).
    set (new := {| Kinematic.object := convert_response (Kinematic.response ProtoResponse res);
                   Kinematic.use_count := 1 |}).
    assert (Hfresh : l' ∉ dom h1) by apply is_fresh.
    assert (Hne : l' ≠ l).
    { intros Heq. apply Hfresh. rewrite Heq. unfold h1. rewrite dom_insert. set_solver. }
    assert (Hnone : Kinematic.heap Response σ !! l' = None).
    { apply not_elem_of_dom. intros Hin. apply Hfresh. unfold h1.
      rewrite dom_insert. set_solver. }
    assert (Hrel : Kinematic.sp_release Response (<[l' := new]> h1) (Some l)
                   = <[l := {| Kinematic.object := v; Kinematic.use_count := S n |}]>
                       (<[l' := new]> h1)).
    { apply sp_release_shared. rewrite lookup_insert_ne by done.
      unfold h1. by rewrite lookup_insert_eq. }
    rewrite Hrel.
    assert (Hfinal : Kinematic.sp_release Response
                       (<[l := {| Kinematic.object := v; Kinematic.use_count := S n |}]>
                          (<[l' := new]> h1)) (Some l')
                     = Kinematic.heap Response σ).
    { rewrite (sp_release_last _ _ (convert_response (Kinematic.response ProtoResponse res))).
      - apply map_eq. intros i. unfold h1.
        destruct (decide (i = l')) as [->|Hi'].
        + by rewrite lookup_delete_eq, Hnone.
        + rewrite lookup_delete_ne by done.
          destruct (decide (i = l)) as [->|Hi].
          * by rewrite lookup_insert_eq, Hl.
          * by rewrite !lookup_insert_ne by done.
      - rewrite lookup_insert_ne by done. by rewrite lookup_insert_eq. }
    split; [exact Hfinal|]. split; [reflexivity|].
    eexists _, l'. split; [reflexivity|]. simpl.
    split; [done|]. split; [done|]. split.
    + rewrite lookup_insert_ne by done. by rewrite lookup_insert_eq.
    + by rewrite lookup_insert_eq.
  - split; [|reflexivity].
    rewrite (sp_release_shared _ _ v n) by (by rewrite lookup_insert_eq).
    rewrite insert_insert_eq. by apply insert_id.
Qed.

End KinematicServiceFacts.

Lemma service_callback_leaves_response_witness :
  Kinematic.heap string
    (Kinematic.init_lambda string string string string (λ request, request) solving_api
       (λ proto_response, proto_response) caller_store "request" (Some 1%positive)).2
  = Kinematic.heap string caller_store.
Proof.
  apply (proj1 (service_callback_leaves_response string string string string
                  (λ request, request) solving_api (λ proto_response, proto_response)
                  caller_store "request" 1%positive
                  {| Kinematic.object := "caller's response"; Kinematic.use_count := 1 |}
                  eq_refl ltac:(simpl; lia))).
Defined.

(** * Further properties of the image client *)

(** ** toCameraInfoMsg *)

(** The camera info of every response: the plumb-bob model with five zero
    coefficients, the identity for rectification, and K and P filled
    row by row from the focal length and the principal point, with the
    fourth column of P, where Tx and Ty stand, left at zero. *)
Theorem toCameraInfoMsg_matrices r robot_name clock_skew :
  ∃ info,
    toCameraInfoMsg r robot_name clock_skew = Ok info ∧
    distortion_model info = "plumb_bob" ∧
    info_d info = [0; 0; 0; 0; 0]%float ∧
    info_r info = [1; 0; 0; 0; 1; 0; 0; 0; 1]%float ∧
    info_k info
    = [ v2_x (focal_length (pinhole_intrinsics (source r))); 0%float;
        v2_x (principal_point (pinhole_intrinsics (source r)));
        0%float; v2_y (focal_length (pinhole_intrinsics (source r)));
        v2_y (principal_point (pinhole_intrinsics (source r)));
        0%float; 0%float; 1%float ] ∧
    info_p info
    = [ v2_x (focal_length (pinhole_intrinsics (source r))); 0%float;
        v2_x (principal_point (pinhole_intrinsics (source r))); 0%float;
        0%float; v2_y (focal_length (pinhole_intrinsics (source r)));
        v2_y (principal_point (pinhole_intrinsics (source r))); 0%float;
        0%float; 0%float; 1%float; 0%float ].
Proof. eexists. repeat split; reflexivity. Qed.

(** The camera info does not look at the pixels: a response whose image
    is replaced by one of the same declared size, whatever its payload,
    encoding and pixel format, has the same camera info. *)
Theorem toCameraInfoMsg_ignores_pixels r i robot_name clock_skew :
  img_rows i = img_rows (image (shot r)) →
  img_cols i = img_cols (image (shot r)) →
  toCameraInfoMsg (response_with_image r i) robot_name clock_skew
  = toCameraInfoMsg r robot_name clock_skew.
Proof.
  intros Hrows Hcols. unfold toCameraInfoMsg, response_with_image, with_image.
  simpl. by rewrite Hrows, Hcols.
Qed.

Lemma toCameraInfoMsg_ignores_pixels_witness :
  toCameraInfoMsg (response_with_image first_entry rle_image) "spot" 50
  = toCameraInfoMsg first_entry "spot" 50.
Proof.
  apply (toCameraInfoMsg_ignores_pixels first_entry rle_image "spot" 50);
    reflexivity.
Defined.

(** ** toImageMsg *)

Lemma toImageMsg_header imdecode c robot_name clock_skew m :
  toImageMsg imdecode c robot_name clock_skew = Ok m →
  image_header m = header_of c robot_name clock_skew.
Proof.
  unfold toImageMsg. destruct (getCvPixelFormat _); [|discriminate].
  repeat case_decide; try discriminate.
  - destruct (mat_data (imdecode _)); [|discriminate]. by intros [= <-].
  - simpl. by intros [= <-].
Qed.

Lemma toImageMsg_ok_supported imdecode c robot_name clock_skew m :
  toImageMsg imdecode c robot_name clock_skew = Ok m →
  ∃ t, getCvPixelFormat (img_pixel_format (image c)) = Ok t.
Proof.
  unfold toImageMsg. destruct (getCvPixelFormat _) as [t|]; [|discriminate].
  by exists t.
Qed.

(** An image and the camera info made from the same response carry the
    same header: the same corrected stamp and the same frame id. *)
Theorem image_and_camera_info_share_header imdecode r robot_name clock_skew m info :
  toImageMsg imdecode (shot r) robot_name clock_skew = Ok m →
  toCameraInfoMsg r robot_name clock_skew = Ok info →
  image_header m = info_header info.
Proof.
  intros Hm%toImageMsg_header [= <-]. by rewrite Hm.
Qed.

Lemma image_and_camera_info_share_header_witness :
  ∃ m info,
    toImageMsg one_pixel_codec (shot jpeg_entry) "spot" 50 = Ok m ∧
    toCameraInfoMsg jpeg_entry "spot" 50 = Ok info ∧
    image_header m = info_header info.
Proof.
  do 2 eexists. split; [reflexivity|]. split; [reflexivity|].
  apply (image_and_camera_info_share_header one_pixel_codec jpeg_entry "spot" 50);
    reflexivity.
Defined.

(** For a raw entry the image and the camera info also agree on height
    and width, both being the declared rows and columns. *)
Theorem raw_image_matches_camera_info_size imdecode r robot_name clock_skew m info :
  img_format (image (shot r)) = FORMAT_RAW →
  toImageMsg imdecode (shot r) robot_name clock_skew = Ok m →
  toCameraInfoMsg r robot_name clock_skew = Ok info →
  height m = info_height info ∧ width m = info_width info.
Proof.
  intros Hraw Hm [= <-].
  destruct (toImageMsg_ok_supported _ _ _ _ _ Hm) as [t Ht].
  rewrite (toImageMsg_raw _ _ _ _ _ Ht Hraw) in Hm.
  injection Hm as <-. by split.
Qed.

Lemma raw_image_matches_camera_info_size_witness :
  ∃ m info,
    toImageMsg no_codec (shot first_entry) "" 0 = Ok m ∧
    toCameraInfoMsg first_entry "" 0 = Ok info ∧
    height m = info_height info ∧ width m = info_width info.
Proof.
  do 2 eexists. split; [reflexivity|]. split; [reflexivity|].
  apply (raw_image_matches_camera_info_size no_codec first_entry "" 0);
    reflexivity.
Defined.

(** toImageMsg returns a message only for a JPEG or raw entry of a known
    pixel format.  With a known pixel format, the run-length encoding is
    refused as not yet implemented, and every encoding other than JPEG,
    raw and run-length as unknown. *)
Theorem toImageMsg_encodings imdecode c robot_name clock_skew :
  (∀ m, toImageMsg imdecode c robot_name clock_skew = Ok m →
        supported_pixel_format (img_pixel_format (image c)) = true ∧
        (img_format (image c) = FORMAT_JPEG ∨ img_format (image c) = FORMAT_RAW)) ∧
  (supported_pixel_format (img_pixel_format (image c)) = true →
   (img_format (image c) = FORMAT_RLE →
    toImageMsg imdecode c robot_name clock_skew
    = Unexpected "Conversion from FORMAT_RLE is not yet implemented.") ∧
   (img_format (image c) ≠ FORMAT_JPEG → img_format (image c) ≠ FORMAT_RAW →
    img_format (image c) ≠ FORMAT_RLE →
    toImageMsg imdecode c robot_name clock_skew = Unexpected "Unknown image format.")).
Proof.
  split.
  - intros m Hm. split.
    + apply getCvPixelFormat_supported. by eapply toImageMsg_ok_supported.
    + revert Hm. unfold toImageMsg.
      destruct (getCvPixelFormat _); [|discriminate].
      repeat case_decide; (discriminate || auto).
  - intros [t Ht]%getCvPixelFormat_supported. unfold toImageMsg. rewrite Ht. split.
    + intros ->. reflexivity.
    + intros. by rewrite !decide_False by done.
Qed.

Lemma toImageMsg_encodings_witness :
  toImageMsg no_codec (shot rle_entry) "spot" 50
  = Unexpected "Conversion from FORMAT_RLE is not yet implemented.".
Proof.
  apply (proj1 (proj2 (toImageMsg_encodings no_codec (shot rle_entry) "spot" 50)
                  eq_refl)).
  reflexivity.
Defined.

Lemma int32_in_range z : (- 2 ^ 31 ≤ z < 2 ^ 31)%Z → int32 z = z.
Proof. intros Hz. unfold int32. rewrite Z.mod_small by lia. lia. Qed.

(** A JPEG entry of a known pixel format whose rows * cols fits an [int]
    converts exactly when the codec returns a matrix with data.  The
    codec is given one row of rows * cols bytes over the payload; the
    message takes its height and width from the decoded matrix, not from
    the declared rows and columns, and is labelled bgr8. *)
Theorem toImageMsg_jpeg_outcome imdecode c robot_name clock_skew :
  supported_pixel_format (img_pixel_format (image c)) = true →
  img_format (image c) = FORMAT_JPEG →
  (- 2 ^ 31 ≤ img_rows (image c) * img_cols (image c) < 2 ^ 31)%Z →
  compressed_matrix (image c)
  = Mat_over 1 (img_rows (image c) * img_cols (image c)) CV.CV_8UC1
             (Some (img_data (image c))) ∧
  (mat_data (imdecode (compressed_matrix (image c))) = None →
   toImageMsg imdecode c robot_name clock_skew
   = Unexpected "Failed to decode JPEG-compressed image.") ∧
  (∀ buf, mat_data (imdecode (compressed_matrix (image c))) = Some buf →
     ∃ m, toImageMsg imdecode c robot_name clock_skew = Ok m ∧
          encoding m = "bgr8" ∧
          height m = uint32 (mat_rows (imdecode (compressed_matrix (image c)))) ∧
          width m = uint32 (mat_cols (imdecode (compressed_matrix (image c))))).
Proof.
  intros Hpf Hjpeg Hrange. rewrite (toImageMsg_jpeg _ _ _ _ Hpf Hjpeg).
  unfold compressed_matrix, front_address, int32_mul.
  rewrite (int32_in_range _ Hrange). simpl. split; [done|]. split.
  - by intros ->.
  - intros buf ->. eexists. by repeat split.
Qed.

Lemma toImageMsg_jpeg_outcome_witness :
  toImageMsg no_codec (shot jpeg_entry) "" 0
  = Unexpected "Failed to decode JPEG-compressed image." ∧
  ∃ m, toImageMsg one_pixel_codec (shot jpeg_entry) "" 0 = Ok m ∧
       encoding m = "bgr8" ∧ height m = 1 ∧ width m = 1.
Proof.
  split.
  - apply (proj1 (proj2 (toImageMsg_jpeg_outcome no_codec (shot jpeg_entry) "" 0
                           eq_refl eq_refl ltac:(simpl; lia)))).
    reflexivity.
  - apply (proj2 (proj2 (toImageMsg_jpeg_outcome one_pixel_codec (shot jpeg_entry) "" 0
                           eq_refl eq_refl ltac:(simpl; lia)))
             [Byte.x01; Byte.x02; Byte.x03]).
    reflexivity.
Defined.

Lemma copy_bytes_length src n : length (copy_bytes src n) = n.
Proof.
  unfold copy_bytes. destruct src.
  - by rewrite length_fmap, length_seq.
  - apply length_replicate.
Qed.

Lemma copy_bytes_lookup (buf : list Byte.byte) (n i : nat) :
  (i < n)%nat → copy_bytes (Some buf) n !! i = Some (buf !! i).
Proof.
  intros Hi. unfold copy_bytes.
  by rewrite list_lookup_fmap, lookup_seq_lt.
Qed.

Lemma elemSize_supported format t :
  getCvPixelFormat format = Ok t → (1 ≤ CV.elemSize t ≤ 4)%Z.
Proof. destruct format; intros [= <-]; vm_compute; split; discriminate. Qed.

(** The bytes of a raw message.  For a raw entry of a known pixel format
    whose declared size fits 32 bits, the message has rows * cols *
    (bytes per pixel) bytes in rows of cols * (bytes per pixel); byte i is
    byte i of the payload where the payload has one, and is read from
    beyond the payload where it has none. *)
Theorem toImageMsg_raw_bytes imdecode c robot_name clock_skew t :
  img_format (image c) = FORMAT_RAW →
  getCvPixelFormat (img_pixel_format (image c)) = Ok t →
  (0 ≤ img_rows (image c))%Z → (0 ≤ img_cols (image c))%Z →
  (img_cols (image c) * CV.elemSize t < 2 ^ 32)%Z →
  (raw_size (image c) t < 2 ^ 32)%Z →
  ∃ m, toImageMsg imdecode c robot_name clock_skew = Ok m ∧
       step m = (img_cols (image c) * CV.elemSize t)%Z ∧
       length (data m) = Z.to_nat (raw_size (image c) t) ∧
       ∀ i : nat, (i < Z.to_nat (raw_size (image c) t))%nat →
                  data m !! i = Some (img_data (image c) !! i).
Proof.
  intros Hraw Ht Hrows Hcols Hstep Hsize. unfold raw_size in *.
  pose proof (elemSize_supported _ _ Ht) as Hes.
  rewrite (toImageMsg_raw _ _ _ _ _ Ht Hraw).
  eexists. split; [reflexivity|].
  unfold CvImage_toImageMsg, Mat_over.
  cbn [step data mat_cols mat_rows mat_type mat_data].
  assert (Hs : uint32 (img_cols (image c) * CV.elemSize t)
               = (img_cols (image c) * CV.elemSize t)%Z).
  { unfold uint32. apply Z.mod_small. nia. }
  rewrite Hs.
  assert (Hn : uint32 (img_cols (image c) * CV.elemSize t * img_rows (image c))
               = (img_rows (image c) * img_cols (image c) * CV.elemSize t)%Z).
  { unfold uint32. rewrite Z.mod_small by nia. lia. }
  rewrite Hn. split; [done|]. split.
  - apply copy_bytes_length.
  - intros i Hi. by apply copy_bytes_lookup.
Qed.

Lemma toImageMsg_raw_bytes_witness :
  ∃ m, toImageMsg no_codec (sample_capture "depth" [] raw_depth_short) "" 0 = Ok m ∧
       length (data m) = 8%nat ∧
       data m !! 6%nat = Some (Some Byte.x01) ∧
       data m !! 7%nat = Some None.
Proof.
  destruct (toImageMsg_raw_bytes no_codec (sample_capture "depth" [] raw_depth_short)
              "" 0 CV.CV_16UC1)
    as (m & Hm & _ & Hlen & Hbytes); try (vm_compute; (reflexivity || discriminate)).
  exists m. split; [exact Hm|]. split; [exact Hlen|].
  split; [apply (Hbytes 6%nat) | apply (Hbytes 7%nat)]; vm_compute; lia.
Defined.

(** Depth and 16-bit greyscale are the only two pixel formats that resolve
    to one matrix type, and nothing in the message tells them apart: an
    entry converts to the same result under either tag, in every encoding. *)
Theorem depth_and_greyscale16_indistinguishable imdecode c robot_name clock_skew :
  toImageMsg imdecode (with_image c (with_pixel_format (image c) PIXEL_FORMAT_DEPTH_U16))
    robot_name clock_skew
  = toImageMsg imdecode
      (with_image c (with_pixel_format (image c) PIXEL_FORMAT_GREYSCALE_U16))
      robot_name clock_skew ∧
  ∀ f1 f2 t,
    getCvPixelFormat f1 = Ok t → getCvPixelFormat f2 = Ok t →
    f1 = f2 ∨
    ((f1 = PIXEL_FORMAT_DEPTH_U16 ∨ f1 = PIXEL_FORMAT_GREYSCALE_U16) ∧
     (f2 = PIXEL_FORMAT_DEPTH_U16 ∨ f2 = PIXEL_FORMAT_GREYSCALE_U16)).
Proof.
  split; [reflexivity|].
  intros f1 f2 t H1 H2.
  destruct f1; try discriminate; destruct f2; try discriminate;
    injection H1 as <-; (discriminate H2 || auto).
Qed.

Lemma depth_and_greyscale16_indistinguishable_witness :
  PIXEL_FORMAT_RGB_U8 = PIXEL_FORMAT_RGB_U8 ∨
  ((PIXEL_FORMAT_RGB_U8 = PIXEL_FORMAT_DEPTH_U16
    ∨ PIXEL_FORMAT_RGB_U8 = PIXEL_FORMAT_GREYSCALE_U16) ∧
   (PIXEL_FORMAT_RGB_U8 = PIXEL_FORMAT_DEPTH_U16
    ∨ PIXEL_FORMAT_RGB_U8 = PIXEL_FORMAT_GREYSCALE_U16)).
Proof.
  apply (proj2 (depth_and_greyscale16_indistinguishable no_codec
                  (sample_capture "depth" [] raw_depth_full) "" 0)
           PIXEL_FORMAT_RGB_U8 PIXEL_FORMAT_RGB_U8 CV.CV_8UC3);
    reflexivity.
Defined.

(** ** getImageTransforms *)

(** The loop only appends.  Started from [out] on a concatenated edge
    sequence, it returns [out] itself, then the transforms of the first
    part, then those of the second: what was collected before stays in
    front, unchanged, and the new transforms follow in iteration order. *)
Theorem getImageTransforms_loop_appends edges1 edges2 acquisition robot_name clock_skew out :
  getImageTransforms_loop (edges1 ++ edges2) acquisition robot_name clock_skew out
  = out
    ++ getImageTransforms_loop edges1 acquisition robot_name clock_skew []
    ++ getImageTransforms_loop edges2 acquisition robot_name clock_skew [].
Proof.
  rewrite !getImageTransforms_loop_spec. simpl.
  by rewrite filter_app, fmap_app.
Qed.

(** getImageTransforms emits one transform for each edge whose child
    frame is not excluded, hence no more transforms than the snapshot has
    edges, and none at all exactly when every child frame is excluded. *)
Theorem getImageTransforms_count r robot_name clock_skew :
  ∃ out,
    getImageTransforms r robot_name clock_skew = Ok out ∧
    length out
    = length (filter kept (child_to_parent_edge_map (transforms_snapshot (shot r)))) ∧
    (length out ≤ length (child_to_parent_edge_map (transforms_snapshot (shot r))))%nat ∧
    (out = [] ↔
     Forall (λ entry, set_count kExcludedStaticTfFrames entry.1 > 0)
            (child_to_parent_edge_map (transforms_snapshot (shot r)))).
Proof.
  eexists. split; [apply getImageTransforms_spec|].
  rewrite length_fmap. split; [done|]. split; [apply length_filter|].
  assert (Hnil : ∀ kept_edges : list (string * Edge),
            emitted (acquisition_time (shot r)) robot_name clock_skew <$> kept_edges = []
            ↔ kept_edges = []).
  { intros kept_edges. split; [apply fmap_nil_inv | by intros ->]. }
  rewrite Hnil. clear Hnil.
  induction (child_to_parent_edge_map (transforms_snapshot (shot r)))
    as [|entry rest IH].
  - split; [by constructor | done].
  - destruct (decide (kept entry)) as [Hk|Hk].
    + rewrite filter_cons_True by done. split; [done|].
      intros Hall. apply Forall_cons in Hall as [Hex%set_count_excluded _].
      by destruct Hk.
    + rewrite filter_cons_False by done. rewrite IH. split.
      * intros Hall. constructor; [|done]. apply set_count_excluded.
        unfold kept in Hk. by apply dec_stable.
      * by intros [_ Hall]%Forall_cons.
Qed.

Lemma getImageTransforms_count_witness :
  ∃ out, getImageTransforms (response_with_edges hand_edges) "spot" 0 = Ok out ∧
         length out = 1%nat.
Proof.
  destruct (getImageTransforms_count (response_with_edges hand_edges) "spot" 0)
    as (out & Hout & Hlen & _).
  exists out. split; [exact Hout|]. rewrite Hlen. vm_compute. reflexivity.
Defined.

Lemma String_prefix_app a b : String.prefix a (a +:+ b) = true.
Proof.
  induction a as [|ch a IH]; simpl; [by destruct b|].
  by destruct (Ascii.ascii_dec ch ch).
Qed.

Lemma frame_prefix_nonempty robot_name :
  robot_name ≠ "" → frame_prefix robot_name = robot_name +:+ "/".
Proof. intros Hne. unfold frame_prefix. by rewrite decide_False. Qed.

(** Frame ids under a robot name.  When the robot name is not empty,
    every frame id of a response starts with the robot name and a slash:
    that of the image, that of the camera info, and the parent and child
    of every transform.  When it is empty, the image and the camera info
    carry the sensor frame name as it is, without a leading slash. *)
Theorem frame_ids_carry_robot_name imdecode r robot_name clock_skew :
  (robot_name ≠ "" →
   (∀ m, toImageMsg imdecode (shot r) robot_name clock_skew = Ok m →
         String.prefix (robot_name +:+ "/") (frame_id (image_header m)) = true) ∧
   (∀ info, toCameraInfoMsg r robot_name clock_skew = Ok info →
            String.prefix (robot_name +:+ "/") (frame_id (info_header info)) = true) ∧
   (∀ out t, getImageTransforms r robot_name clock_skew = Ok out → t ∈ out →
             String.prefix (robot_name +:+ "/") (child_frame_id t) = true ∧
             String.prefix (robot_name +:+ "/") (frame_id (tf_header t)) = true)) ∧
  (robot_name = "" →
   (∀ m, toImageMsg imdecode (shot r) robot_name clock_skew = Ok m →
         frame_id (image_header m) = frame_name_image_sensor (shot r)) ∧
   (∀ info, toCameraInfoMsg r robot_name clock_skew = Ok info →
            frame_id (info_header info) = frame_name_image_sensor (shot r))).
Proof.
  split.
  - intros Hne. split; [|split].
    + intros m ->%toImageMsg_header. simpl.
      rewrite (frame_prefix_nonempty _ Hne). apply String_prefix_app.
    + intros info [= <-]. simpl.
      rewrite (frame_prefix_nonempty _ Hne). apply String_prefix_app.
    + intros out t. rewrite getImageTransforms_spec. intros [= <-].
      intros (entry & -> & _)%list_elem_of_fmap.
      rewrite emitted_child, emitted_parent. unfold namespaced.
      rewrite !decide_False by done. split; apply String_prefix_app.
  - intros ->. split.
    + by intros m ->%toImageMsg_header.
    + by intros info [= <-].
Qed.

Lemma frame_ids_carry_robot_name_witness :
  ∃ m, toImageMsg no_codec (shot first_entry) "spot" 0 = Ok m ∧
       String.prefix "spot/" (frame_id (image_header m)) = true.
Proof.
  eexists. split; [reflexivity|].
  apply (proj1 (proj1 (frame_ids_carry_robot_name no_codec first_entry "spot" 0)
                  ltac:(discriminate))).
  reflexivity.
Defined.

(** ** getImages *)

Section GetImagesFurther.

Variable imdecode : Mat → Mat.
Context {ImageSource : Type} `{Countable ImageSource}.
Variable fromSpotImageSourceName : string → expected ImageSource string.
Variables (robot_name_ : string) (clock_skew : Duration).

Local Abbreviation body := (getImages_body imdecode fromSpotImageSourceName robot_name_ clock_skew).
Local Abbreviation loop := (getImages_loop imdecode fromSpotImageSourceName robot_name_ clock_skew).

(** The two collaborators come first.  A failed image request ends the
    call with its debug string, whatever the clock skew estimate is; with
    the request a success, a failed clock skew estimate ends the call with
    its error, whatever the batch holds. *)
Theorem getImages_collaborator_errors get_image_result clock_skew_result :
  (status_ok get_image_result = false →
   getImages imdecode fromSpotImageSourceName robot_name_ get_image_result clock_skew_result
   = Unexpected ("Failed to get images: " +:+ status_DebugString get_image_result)) ∧
  (status_ok get_image_result = true →
   ∀ e, clock_skew_result = Unexpected e →
        getImages imdecode fromSpotImageSourceName robot_name_ get_image_result
          clock_skew_result
        = Unexpected ("Failed to get latest clock skew: " +:+ e)).
Proof.
  unfold getImages. split.
  - by intros ->.
  - by intros -> e ->.
Qed.

Lemma try_emplace_size (m : gmap ImageSource ImageWithCameraInfo) key v :
  (size (try_emplace m key v) ≤ S (size m))%nat.
Proof.
  unfold try_emplace. destruct (m !! key) eqn:Hk; [lia|].
  by rewrite map_size_insert_None.
Qed.

Lemma getImages_loop_size rs out out' :
  loop rs out = Ok out' →
  (size (images_ out') ≤ size (images_ out) + length rs)%nat.
Proof.
  revert out. induction rs as [|r rs IH]; intros out; simpl.
  - intros [= <-]. lia.
  - destruct (body out r) as [out1|] eqn:Hb; [|discriminate].
    intros Hl%IH.
    destruct (getImages_body_ok_inv _ _ _ _ _ _ _ Hb)
      as (im & info & key & Him & Hinfo & Hkey & _).
    rewrite (getImages_body_ok _ _ _ _ _ _ _ _ _ Him Hinfo Hkey) in Hb.
    injection Hb as <-. simpl in Hl.
    pose proof (try_emplace_size (images_ out) key
                  {| image_msg_of := im; info_msg_of := info |}).
    lia.
Qed.

Lemma getImages_loop_bound rs out out' r :
  loop rs out = Ok out' → r ∈ rs →
  ∃ key, fromSpotImageSourceName (source_name (source r)) = Ok key ∧
         is_Some (images_ out' !! key).
Proof.
  revert out. induction rs as [|r0 rs IH]; intros out Hloop Hin.
  - by apply elem_of_nil in Hin.
  - simpl in Hloop.
    destruct (body out r0) as [out1|] eqn:Hb; [|discriminate].
    apply elem_of_cons in Hin as [->|Hin]; [|by eapply IH].
    destruct (getImages_body_ok_inv _ _ _ _ _ _ _ Hb)
      as (im & info & key & Him & Hinfo & Hkey & _).
    exists key. split; [done|].
    rewrite (getImages_body_ok _ _ _ _ _ _ _ _ _ Him Hinfo Hkey) in Hb.
    destruct (try_emplace_is_Some (images_ out) key
                {| image_msg_of := im; info_msg_of := info |}) as [v Hv].
    exists v. eapply getImages_loop_keeps; [exact Hloop|].
    injection Hb as <-. exact Hv.
Qed.

Lemma getImages_loop_origin rs out :
  loop rs {| images_ := ∅; transforms_ := [] |} = Ok out →
  ∀ key entry,
    images_ out !! key = Some entry →
    ∃ r, r ∈ rs ∧
         toImageMsg imdecode (shot r) robot_name_ clock_skew = Ok (image_msg_of entry) ∧
         toCameraInfoMsg r robot_name_ clock_skew = Ok (info_msg_of entry) ∧
         fromSpotImageSourceName (source_name (source r)) = Ok key.
Proof.
  intros Hloop.
  eapply (getImages_loop_invariant imdecode fromSpotImageSourceName robot_name_ clock_skew
            (λ o, ∀ key entry,
               images_ o !! key = Some entry →
               ∃ r, r ∈ rs ∧
                    toImageMsg imdecode (shot r) robot_name_ clock_skew
                    = Ok (image_msg_of entry) ∧
                    toCameraInfoMsg r robot_name_ clock_skew = Ok (info_msg_of entry) ∧
                    fromSpotImageSourceName (source_name (source r)) = Ok key));
    [| |exact Hloop].
  - intros key entry. simpl. by rewrite lookup_empty.
  - intros r o o' Hin Ho Hb key entry.
    destruct (getImages_body_ok_inv _ _ _ _ _ _ _ Hb)
      as (im & info & key' & Him & Hinfo & Hkey & _).
    rewrite (getImages_body_ok _ _ _ _ _ _ _ _ _ Him Hinfo Hkey) in Hb.
    injection Hb as <-. simpl. unfold try_emplace.
    destruct (images_ o !! key') eqn:Hk; [apply Ho|].
    destruct (decide (key' = key)) as [->|Hne].
    + rewrite lookup_insert_eq. intros [= <-]. by exists r.
    + rewrite lookup_insert_ne by done. apply Ho.
Qed.

(** Each image a result holds was made from an entry of the batch: the
    image and the camera info stored under a canonical name are the
    conversions of one and the same entry, whose wire name maps to that
    name. *)
Theorem getImages_entries_come_from_batch get_image_result out :
  getImages imdecode fromSpotImageSourceName robot_name_ get_image_result (Ok clock_skew)
  = Ok out →
  ∀ key entry,
    images_ out !! key = Some entry →
    ∃ r, r ∈ image_responses get_image_result ∧
         toImageMsg imdecode (shot r) robot_name_ clock_skew = Ok (image_msg_of entry) ∧
         toCameraInfoMsg r robot_name_ clock_skew = Ok (info_msg_of entry) ∧
         fromSpotImageSourceName (source_name (source r)) = Ok key.
Proof.
  unfold getImages. destruct (status_ok get_image_result); [|discriminate].
  simpl. apply getImages_loop_origin.
Qed.

(** The canonical names a result holds are exactly those the entries of
    the batch map to, and the result never holds more images than the
    batch has entries. *)
Theorem getImages_names get_image_result out :
  getImages imdecode fromSpotImageSourceName robot_name_ get_image_result (Ok clock_skew)
  = Ok out →
  (∀ key, is_Some (images_ out !! key) ↔
          ∃ r, r ∈ image_responses get_image_result ∧
               fromSpotImageSourceName (source_name (source r)) = Ok key) ∧
  (size (images_ out) ≤ length (image_responses get_image_result))%nat.
Proof.
  unfold getImages. destruct (status_ok get_image_result); [|discriminate].
  simpl. intros Hloop. split.
  - intros key. split.
    + intros [entry Hentry].
      destruct (getImages_loop_origin _ _ Hloop key entry Hentry)
        as (r & Hin & _ & _ & Hkey).
      by exists r.
    + intros (r & Hin & Hkey).
      destruct (getImages_loop_bound _ _ _ r Hloop Hin) as (key' & Hkey' & Hsome).
      congruence.
  - apply getImages_loop_size in Hloop. simpl in Hloop.
    by rewrite map_size_empty in Hloop.
Qed.

(** No transform of a result has an excluded frame for its child:
    neither "body", "odom", "vision" nor "arm0.link_wr1", whatever the
    snapshots of the batch hold. *)
Theorem getImages_transforms_not_excluded get_image_result out :
  getImages imdecode fromSpotImageSourceName robot_name_ get_image_result (Ok clock_skew)
  = Ok out →
  ∀ t, t ∈ transforms_ out →
       (child_frame_id t ∉ kExcludedStaticTfFrames) ∧
       ∃ r child e,
         r ∈ image_responses get_image_result ∧
         (child, e) ∈ child_to_parent_edge_map (transforms_snapshot (shot r)) ∧
         (child ∉ kExcludedStaticTfFrames) ∧
         child_frame_id t = namespaced robot_name_ child.
Proof.
  unfold getImages. destruct (status_ok get_image_result); [|discriminate].
  simpl. intros Hloop t.
  rewrite (getImages_loop_transforms _ _ _ _ _ _ _ Hloop). simpl.
  intros (r & Ht & Hr)%list_elem_of_bind.
  apply list_elem_of_fmap in Ht as ([child e] & -> & [Hkept Hin]%list_elem_of_filter).
  split.
  - rewrite emitted_child. by apply namespaced_not_excluded.
  - by exists r, child, e.
Qed.

End GetImagesFurther.

Lemma getImages_collaborator_errors_witness :
  getImages no_codec sample_registry "spot"
    {| status_ok := false; status_DebugString := "timeout";
       image_responses := [first_entry] |} (Ok 50)
  = Unexpected "Failed to get images: timeout" ∧
  getImages no_codec sample_registry "spot" (batch_of [first_entry])
    (Unexpected "no estimate")
  = Unexpected "Failed to get latest clock skew: no estimate".
Proof.
  split.
  - apply (proj1 (getImages_collaborator_errors no_codec sample_registry "spot"
                    {| status_ok := false; status_DebugString := "timeout";
                       image_responses := [first_entry] |} (Ok 50))).
    reflexivity.
  - apply (proj2 (getImages_collaborator_errors no_codec sample_registry "spot"
                    (batch_of [first_entry]) (Unexpected "no estimate"))
             eq_refl "no estimate").
    reflexivity.
Defined.

Lemma getImages_entries_come_from_batch_witness :
  ∃ out entry r,
    getImages no_codec sample_registry "" (batch_of [first_entry; second_entry]) (Ok 0)
    = Ok out ∧
    images_ out !! "FRONTLEFT/DEPTH" = Some entry ∧
    r ∈ [first_entry; second_entry] ∧
    toImageMsg no_codec (shot r) "" 0 = Ok (image_msg_of entry) ∧
    toCameraInfoMsg r "" 0 = Ok (info_msg_of entry).
Proof.
  destruct (getImages no_codec sample_registry "" (batch_of [first_entry; second_entry])
              (Ok 0)) as [out|e] eqn:Hget;
    [|vm_compute in Hget; discriminate Hget].
  destruct (images_ out !! "FRONTLEFT/DEPTH") as [entry|] eqn:Hentry.
  - destruct (getImages_entries_come_from_batch no_codec sample_registry "" 0
                (batch_of [first_entry; second_entry]) out Hget
                "FRONTLEFT/DEPTH" entry Hentry) as (r & Hin & Him & Hinfo & _).
    exists out, entry, r. split; [reflexivity|]. split; [exact Hentry|].
    split; [exact Hin|]. split; [exact Him | exact Hinfo].
  - vm_compute in Hget. injection Hget as <-. vm_compute in Hentry.
    discriminate Hentry.
Defined.

Lemma getImages_names_witness :
  ∃ out,
    getImages no_codec sample_registry "" (batch_of [first_entry; second_entry]) (Ok 0)
    = Ok out ∧
    is_Some (images_ out !! "FRONTLEFT/DEPTH") ∧
    (size (images_ out) ≤ 2)%nat.
Proof.
  destruct (getImages no_codec sample_registry "" (batch_of [first_entry; second_entry])
              (Ok 0)) as [out|e] eqn:Hget;
    [|vm_compute in Hget; discriminate Hget].
  destruct (getImages_names no_codec sample_registry "" 0
              (batch_of [first_entry; second_entry]) out Hget) as [Hnames Hsize].
  exists out. split; [reflexivity|]. split; [|exact Hsize].
  apply Hnames. exists first_entry. split; [constructor | reflexivity].
Defined.

Lemma getImages_transforms_not_excluded_witness :
  ∃ out,
    getImages no_codec sample_registry "" (batch_of [hand_entry]) (Ok 0) = Ok out ∧
    ∀ t, t ∈ transforms_ out → child_frame_id t ∉ kExcludedStaticTfFrames.
Proof.
  destruct (getImages no_codec sample_registry "" (batch_of [hand_entry]) (Ok 0))
    as [out|e] eqn:Hget;
    [|vm_compute in Hget; discriminate Hget].
  exists out. split; [reflexivity|]. intros t Ht.
  apply (proj1 (getImages_transforms_not_excluded no_codec sample_registry "" 0
                  (batch_of [hand_entry]) out Hget t Ht)).
Defined.

(** ** The clock skew of a cycle *)

Section ClockSkewOfCycle.

Variable imdecode : Mat → Mat.
Context {ImageSource : Type} `{Countable ImageSource}.
Variable fromSpotImageSourceName : string → expected ImageSource string.
Variables (robot_name_ : string) (clock_skew : Duration).

(** C6. applyClockSkew is the subtraction of the skew: adding the skew
    back gives the timestamp, and a zero skew leaves it as it is.  One
    clock skew corrects every time of a cycle.  In a result of getImages,
    every entry of the batch has been converted to an image and a camera
    info stamped with that entry's own acquisition time less the skew,
    its canonical name is bound in the result, and each of its kept edges
    has its transform in the result under the same stamp; every image and
    camera info the result holds is the conversion of an entry of the
    batch and carries that entry's acquisition time less the skew; and
    every transform the result holds is that of a kept edge of an entry
    and carries that entry's acquisition time less the skew. *)
Theorem applyClockSkew_inverse_and_uniform :
  (∀ t skew : Z,
     applyClockSkew t skew = t - skew ∧
     applyClockSkew t skew + skew = t ∧
     applyClockSkew t 0 = t) ∧
  (∀ get_image_result out,
     getImages imdecode fromSpotImageSourceName robot_name_ get_image_result
       (Ok clock_skew) = Ok out →
     (∀ r, r ∈ image_responses get_image_result →
        ∃ m info key,
          toImageMsg imdecode (shot r) robot_name_ clock_skew = Ok m ∧
          toCameraInfoMsg r robot_name_ clock_skew = Ok info ∧
          fromSpotImageSourceName (source_name (source r)) = Ok key ∧
          is_Some (images_ out !! key) ∧
          stamp (image_header m)
          = applyClockSkew (acquisition_time (shot r)) clock_skew ∧
          stamp (info_header info)
          = applyClockSkew (acquisition_time (shot r)) clock_skew ∧
          ∀ child e,
            (child, e) ∈ child_to_parent_edge_map (transforms_snapshot (shot r)) →
            child ∉ kExcludedStaticTfFrames →
            ∃ t, t ∈ transforms_ out ∧
                 child_frame_id t = namespaced robot_name_ child ∧
                 stamp (tf_header t)
                 = applyClockSkew (acquisition_time (shot r)) clock_skew) ∧
     (∀ key entry,
        images_ out !! key = Some entry →
        ∃ r, r ∈ image_responses get_image_result ∧
             toImageMsg imdecode (shot r) robot_name_ clock_skew
             = Ok (image_msg_of entry) ∧
             toCameraInfoMsg r robot_name_ clock_skew = Ok (info_msg_of entry) ∧
             stamp (image_header (image_msg_of entry))
             = applyClockSkew (acquisition_time (shot r)) clock_skew ∧
             stamp (info_header (info_msg_of entry))
             = applyClockSkew (acquisition_time (shot r)) clock_skew) ∧
     (∀ t, t ∈ transforms_ out →
           ∃ r child e,
             r ∈ image_responses get_image_result ∧
             (child, e) ∈ child_to_parent_edge_map (transforms_snapshot (shot r)) ∧
             child_frame_id t = namespaced robot_name_ child ∧
             stamp (tf_header t)
             = applyClockSkew (acquisition_time (shot r)) clock_skew)).
Proof.
  split.
  { intros t skew. unfold applyClockSkew. lia. }
  intros res out. unfold getImages.
  destruct (status_ok res); [|discriminate]. simpl. intros Hloop.
  pose proof (getImages_loop_transforms _ _ _ _ _ _ _ Hloop) as Hts.
  simpl in Hts.
  split; [|split].
  - intros r Hin.
    pose proof (getImages_loop_ok_inv _ _ _ _ _ _ _ Hloop) as Hall.
    rewrite Forall_forall in Hall. specialize (Hall r Hin).
    unfold entry_converts in Hall. apply andb_true_iff in Hall as [Hm Hkey].
    destruct (toImageMsg imdecode (shot r) robot_name_ clock_skew) as [m|] eqn:Him;
      [|discriminate].
    destruct (toCameraInfoMsg_total r robot_name_ clock_skew) as (info & Hinfo & Hst & _).
    destruct (getImages_loop_bound _ _ _ _ _ _ _ r Hloop Hin) as (key & Hk & Hsome).
    exists m, info, key. repeat split; try done.
    + by eapply toImageMsg_stamp.
    + intros child e Hedge Hkept.
      exists (emitted (acquisition_time (shot r)) robot_name_ clock_skew (child, e)).
      split; [|by split].
      rewrite Hts. apply list_elem_of_bind. exists r. split; [|done].
      apply list_elem_of_fmap. exists (child, e). split; [done|].
      by apply list_elem_of_filter.
  - intros key entry Hentry.
    destruct (getImages_loop_origin _ _ _ _ _ _ Hloop key entry Hentry)
      as (r & Hin & Him & Hinfo & _).
    exists r. repeat split; try done.
    + by eapply toImageMsg_stamp.
    + destruct (toCameraInfoMsg_total r robot_name_ clock_skew) as (i & Hi & Hst & _).
      congruence.
  - intros t. rewrite Hts.
    intros (r & Ht & Hr)%list_elem_of_bind.
    apply list_elem_of_fmap in Ht as ([child e] & -> & [_ Hedge]%list_elem_of_filter).
    by exists r, child, e.
Qed.

End ClockSkewOfCycle.

Lemma applyClockSkew_inverse_and_uniform_witness :
  applyClockSkew 1000 50 + 50 = 1000 ∧
  ∃ out m info t,
    getImages no_codec sample_registry "spot" (batch_of [hand_entry]) (Ok 50) = Ok out ∧
    toImageMsg no_codec (shot hand_entry) "spot" 50 = Ok m ∧
    toCameraInfoMsg hand_entry "spot" 50 = Ok info ∧
    is_Some (images_ out !! "HAND/RGB") ∧
    stamp (image_header m) = 950 ∧
    stamp (info_header info) = 950 ∧
    t ∈ transforms_ out ∧
    child_frame_id t = "spot/hand_color_image_sensor" ∧
    stamp (tf_header t) = 950.
Proof.
  split.
  - apply (proj1 (applyClockSkew_inverse_and_uniform no_codec sample_registry "spot" 50)
             1000 50).
  - destruct (getImages no_codec sample_registry "spot" (batch_of [hand_entry]) (Ok 50))
      as [out|err] eqn:Hget;
      [|vm_compute in Hget; discriminate Hget].
    destruct (proj1 (proj2 (applyClockSkew_inverse_and_uniform no_codec sample_registry
                              "spot" 50)
                       (batch_of [hand_entry]) out Hget)
                hand_entry ltac:(constructor))
      as (m & info & key & Hm & Hinfo & Hkey & Hsome & Hsm & Hsi & Hedges).
    injection Hkey as <-.
    destruct (Hedges "hand_color_image_sensor" (edge_to "arm0.link_wr1"))
      as (t & Ht & Hchild & Hst).
    + vm_compute. constructor.
    + apply (bool_decide_unpack _). vm_compute. exact I.
    + exists out, m, info, t. split; [reflexivity|].
      split; [exact Hm|]. split; [exact Hinfo|]. split; [exact Hsome|].
      split; [exact Hsm|]. split; [exact Hsi|]. split; [exact Ht|].
      split; [exact Hchild | exact Hst].
Defined.

(** * Further properties of the kinematic service *)

Section KinematicServiceLog.

Variables Request Response ProtoRequest ProtoResponse : Type.
Variable convert_request : Request → ProtoRequest.
Variable get_solutions : ProtoRequest → expected (Kinematic.Result ProtoResponse) string.
Variable convert_response : ProtoResponse → Response.

Local Abbreviation init_lambda :=
  (Kinematic.init_lambda Request Response ProtoRequest ProtoResponse
     convert_request get_solutions convert_response).

(** A search without a solution is logged once, with the error of
    get_solutions behind a fixed prefix, and the callback then throws on
    reading the value it does not have instead of returning.  A search
    with a solution logs nothing and returns.  This holds for every
    response pointer, the null pointer included. *)
Theorem service_callback_logs_failed_search σ request response_ptr :
  match get_solutions (convert_request request) with
  | Ok _ =>
    (init_lambda σ request response_ptr).1 = Kinematic.Returned ∧
    Kinematic.logged_errors Response (init_lambda σ request response_ptr).2
    = Kinematic.logged_errors Response σ
  | Unexpected e =>
    (init_lambda σ request response_ptr).1 = Kinematic.Threw_bad_expected_access ∧
    Kinematic.logged_errors Response (init_lambda σ request response_ptr).2
    = Kinematic.logged_errors Response σ
      ++ ["Error searching for an InverseKinematic solution: " +:+ e]
  end.
Proof.
  unfold Kinematic.init_lambda, Kinematic.service_callback_,
    Kinematic.service_callback_assign, Kinematic.make_shared.
  destruct (get_solutions (convert_request request)); by split.
Qed.

End KinematicServiceLog.
